(** * Ultimate Tic-Tac-Toe engine: bitboards, tables, move generation, search

    A shallow embedding of [src/utils/alpha-beta.ts].

    - [Bitboard] and [Move] are JavaScript [bigint]s: unbounded integers, so
      they are [Z] with no wrap-around.  [>>], [<<], [&], [|] on [bigint] are
      [Z.shiftr], [Z.shiftl], [Z.land], [Z.lor] (a negative shift count
      reverses the direction in both worlds); [/] and [%] truncate towards
      zero and are [Z.quot] and [Z.rem].
    - [Eval] is a JavaScript [number].  Every value the engine computes is an
      integer of magnitude far below 2^53, where doubles are exact, so [Eval]
      is [Z] as well.
    - Arrays are lists; an array that is filled and then written by index is
      a list updated with stdpp's [<[i:=v]>]. *)

From Stdlib Require Import ZArith List Bool Lia String Ascii Sorted.
From stdpp Require Import base list.
Import ListNotations.

Local Open Scope Z_scope.

(** ** Types and constants *)

Definition Bitboard := Z.
Definition Move := Z.
Definition Eval := Z.

Record Board := mkBoard {
  us : Bitboard;
  them : Bitboard;
  share : Bitboard;
}.

Record EvalAndPV := mkEvalAndPV {
  evaluation : Eval;
  pv : list Move;
}.

(** Binary literals of the source ([0b101], with [_] separators) are kept as
    written and read by [bin]. *)
Fixpoint bin_digits (s : string) (acc : Z) : Z :=
  match s with
  | EmptyString => acc
  | String c rest =>
      if Ascii.eqb c "0" then bin_digits rest (2 * acc)
      else if Ascii.eqb c "1" then bin_digits rest (2 * acc + 1)
      else bin_digits rest acc
  end.

Definition bin (s : string) : Z := bin_digits s 0.

(** [Array.from(Array(n).keys())] *)
Definition keys (n : nat) : list Z := map Z.of_nat (seq 0 n).

(** [Array.from(a.entries())] *)
Definition entries {A} (a : list A) : list (Z * A) :=
  combine (keys (length a)) a.

Definition OUTCOME_WIN : Eval := 1000000.
Definition OUTCOME_DRAW : Eval := 0.
Definition OUTCOME_LOSS : Eval := -1000000.

Definition BIG_TWO_COUNT : Eval := 90.
Definition BIG_ONE_COUNT : Eval := 20.
Definition SMALL_TWO_COUNT : Eval := 8.
Definition SMALL_ONE_COUNT : Eval := 1.

Definition CENTRE : Eval := 9.
Definition CORNER : Eval := 7.
Definition EDGE : Eval := 5.
Definition SQ_BIG : Eval := 25.

Definition LINE : Bitboard := Eval cbv in bin "111".
Definition CHUNK : Bitboard := Eval cbv in bin "111111111".
Definition DBLCHUNK : Bitboard := Eval cbv in Z.lor (Z.shiftl CHUNK 9) CHUNK.
Definition EXCLZONE : Bitboard :=
  Eval cbv in Z.lor (Z.shiftl (bin "111111") 58) (Z.shiftl 1 54 - 1).
Definition CORNER_MASK : Bitboard := Eval cbv in bin "101000101".
Definition EDGE_MASK : Bitboard := Eval cbv in bin "010101010".
Definition CENTRE_MASK : Bitboard := Eval cbv in bin "000010000".

Definition ZONE_ANY : Bitboard := 9.
Definition NULL_MOVE : Move := 81.

Definition LINE_MAGICS : list Bitboard := Eval cbv in map bin [
  "000_100_000_000_100_000_000_100";
  "000_000_000_000_010_000_100_000";
  "100_000_000_000_001_100_000_000";
  "000_000_000_100_000_000_000_010";
  "010_010_000_010_000_000_010_000";
  "000_000_000_001_000_010_000_000";
  "001_000_100_000_000_000_000_001";
  "000_000_010_000_000_000_001_000";
  "000_001_001_000_000_001_000_000"
]%string.

Definition PRESENCE_MAGICS : list Bitboard := Eval cbv in map bin [
  "10110110";
  "11101110";
  "01011110";
  "11110101";
  "00101101";
  "11011101";
  "01110011";
  "11101011";
  "10011011"
]%string.

(** ** Bit utilities *)

Definition lines (grid : Bitboard) : Bitboard :=
  fold_left (fun x y => x + y)
    (map (fun '(i, v) => v * Z.land (Z.shiftr grid i) 1) (entries LINE_MAGICS))
    0.

Definition linePresence (grid : Bitboard) : bool :=
  negb (0 =? fold_left (fun x y => Z.land x y)
    (map (fun '(i, v) => Z.lor v (Z.land (Z.shiftr grid i) 1 * 255))
       (entries PRESENCE_MAGICS))
    255).

(** The [popCount] array local to [init]: entry [i] counts the set bits among
    the low nine bits of [i], for [i] in [0, 512). *)
Definition popCount : list Z :=
  map (fun i => fold_left (fun acc j => acc + Z.land (Z.shiftr i j) 1) (keys 9) 0)
    (keys 512).

(** Reading a [number[]] at a [bigint] index, [a[Number(k)]].  JavaScript
    yields [undefined] outside the array; every read of the source is masked
    into range ([& LINE] below 8, nine-bit operands below 512, [& DBLCHUNK]
    below 262144), and the model answers 0 out of range. *)
Definition get (a : list Z) (k : Z) : Z :=
  default 0 (a !! Z.to_nat k).

(** The eight lines of a 3x3 grid as nine-bit masks, as the game-status code
    of the user interface lists them: rows, columns, diagonals. *)
Definition grid_lines : list Z := Eval cbv in map bin [
  "000000111";
  "000111000";
  "111000000";
  "001001001";
  "010010010";
  "100100100";
  "100010001";
  "001010100"
]%string.

(** [line] is completed in [grid]: all three of its cells are marked. *)
Definition completed (grid line : Z) : bool := Z.land grid line =? line.

Definition has_completed_line (grid : Z) : bool :=
  existsb (completed grid) grid_lines.

(** Number of marks of [grid] on the cells of [line]. *)
Definition marks_on (grid line : Z) : Z :=
  Z.of_nat (length (List.filter (fun c => Z.testbit grid c && Z.testbit line c) (keys 9))).

(** The 3-bit slot [s] of a word of [lines], read as [init] reads it:
    [(w >> i) & LINE] with [i = 3 * s]. *)
Definition slot (w : Bitboard) (s : Z) : Z := Z.land (Z.shiftr w (3 * s)) LINE.

(** ** Evaluation tables *)

Record Tables := mkTables {
  large : list Eval;
  small : list Eval;
}.

(** State of the loop over the eight slots in [init]. *)
Record LineScan := mkLineScan {
  evaluationLarge : Eval;
  evaluationSmall : Eval;
  usWon : bool;
  themWon : bool;
}.

(** The loop [for (i = 0; i < 24; i += 3)] of [init], over the remaining
    offsets [offs]; [continue] moves on with the state unchanged and [break]
    returns it. *)
Fixpoint scan_lines (offs : list Z) (usLines themLines : Bitboard) (st : LineScan)
  : LineScan :=
  match offs with
  | [] => st
  | i :: rest =>
      let usCount := get popCount (Z.land (Z.shiftr usLines i) LINE) in
      let themCount := get popCount (Z.land (Z.shiftr themLines i) LINE) in
      if negb (usCount =? 0) && negb (themCount =? 0) then
        scan_lines rest usLines themLines st
      else if usCount =? 3 then
        mkLineScan (evaluationLarge st) (evaluationSmall st) true (themWon st)
      else if themCount =? 3 then
        mkLineScan (evaluationLarge st) (evaluationSmall st) (usWon st) true
      else
        scan_lines rest usLines themLines
          (mkLineScan
             (evaluationLarge st
              + ((if usCount =? 2 then BIG_TWO_COUNT
                  else if usCount =? 1 then BIG_ONE_COUNT else 0)
                 - (if themCount =? 2 then BIG_TWO_COUNT
                    else if themCount =? 1 then BIG_ONE_COUNT else 0)))
             (evaluationSmall st
              + ((if usCount =? 2 then SMALL_TWO_COUNT
                  else if usCount =? 1 then SMALL_ONE_COUNT else 0)
                 - (if themCount =? 2 then SMALL_TWO_COUNT
                    else if themCount =? 1 then SMALL_ONE_COUNT else 0)))
             (usWon st) (themWon st))
  end.

(** The offsets 0, 3, ..., 21 the loop visits. *)
Definition slot_offsets : list Z := map (fun k => 3 * k) (keys 8).

Definition evaluationPos (us them : Bitboard) : Eval :=
  CORNER * (get popCount (Z.land us CORNER_MASK) - get popCount (Z.land them CORNER_MASK))
  + EDGE * (get popCount (Z.land us EDGE_MASK) - get popCount (Z.land them EDGE_MASK))
  + CENTRE * (get popCount (Z.land us CENTRE_MASK) - get popCount (Z.land them CENTRE_MASK)).

(** Index of the pair in both tables. *)
Definition table_index (us them : Bitboard) : Z := Z.lor (Z.shiftl them 9) us.

(** [a[Number(k)] = v] on a table.  The index is below the length 262144 for
    nine-bit [us] and [them], so the write never extends the array. *)
Definition put (a : list Z) (k : Z) (v : Z) : list Z := <[Z.to_nat k := v]> a.

(** Body of the two nested loops of [init] for one pair. *)
Definition init_pair (us them : Bitboard) (t : Tables) : Tables :=
  let st := scan_lines slot_offsets (lines us) (lines them) (mkLineScan 0 0 false false) in
  let pos := evaluationPos us them in
  if usWon st then
    mkTables (put (large t) (table_index us them) OUTCOME_WIN) (small t)
  else if themWon st then
    mkTables (put (large t) (table_index us them) OUTCOME_LOSS) (small t)
  else if get popCount (Z.lor us them) =? 9 then
    mkTables (put (large t) (table_index us them) OUTCOME_DRAW) (small t)
  else
    mkTables (put (large t) (table_index us them) (evaluationLarge st + pos * SQ_BIG))
             (put (small t) (table_index us them) (evaluationSmall st + pos)).

Definition TABLE_SIZE : nat := Z.to_nat 262144.

Definition init : Tables :=
  fold_left
    (fun t us => fold_left (fun t them => init_pair us them t) (keys 512) t)
    (keys 512)
    (mkTables (replicate TABLE_SIZE 0) (replicate TABLE_SIZE 0)).

Definition TABLES : Tables := init.
Definition EVAL_TABLE_LARGE : list Eval := large TABLES.
Definition EVAL_TABLE_SMALL : list Eval := small TABLES.

(** ** Positions and moves *)

Definition newBoard : Board := mkBoard 0 0 (Z.shiftl ZONE_ANY 54).

Definition generateMoves (board : Board) : list Move :=
  let '(mkBoard us them share) := board in
  if linePresence (Z.shiftr share 36) || linePresence (Z.shiftr share 45) then []
  else
    let zone := Z.land (Z.shiftr share 54) 15 in
    if zone =? ZONE_ANY then
      let nwToSw := Z.lor us them in
      let sToSe := Z.lor (Z.shiftr share 18) share in
      let large := Z.lor (Z.shiftr share 36) (Z.shiftr share 45) in
      List.filter
        (fun i => (Z.land (Z.shiftr nwToSw i) 1 =? 0)
                  && (Z.land (Z.shiftr large (Z.quot i 9)) 1 =? 0))
        (keys 63)
      ++ List.filter
        (fun i => (Z.land (Z.shiftr sToSe (i - 63)) 1 =? 0)
                  && (Z.land (Z.shiftr large (Z.quot i 9)) 1 =? 0))
        (map (fun i => i + 63) (keys 18))
    else if (zone =? 7) || (zone =? 8) then
      let sToSe := Z.lor (Z.shiftr share 18) share in
      List.filter (fun i => Z.land (Z.shiftr sToSe (i - 63)) 1 =? 0)
        (map (fun i => i + 9 * zone) (keys 9))
    else
      let nwToSw := Z.lor us them in
      List.filter (fun i => Z.land (Z.shiftr nwToSw i) 1 =? 0)
        (map (fun i => i + 9 * zone) (keys 9)).

Definition playMove (board : Board) (move : Move) (side : bool) : Board :=
  let '(mkBoard us them share) := board in
  let '(us, them, share, lineOccupancy) :=
    if move >? 62 then
      let share := Z.lor share (Z.shiftl 1 (move - 63 + (if side then 0 else 18))) in
      (us, them, share,
       linePresence
         (Z.shiftr share (9 * Z.quot move 9 - 63 + (if side then 0 else 18))))
    else if side then
      let us := Z.lor us (Z.shiftl 1 move) in
      (us, them, share, linePresence (Z.shiftr us (9 * Z.quot move 9)))
    else
      let them := Z.lor them (Z.shiftl 1 move) in
      (us, them, share, linePresence (Z.shiftr them (9 * Z.quot move 9))) in
  let share :=
    if lineOccupancy then
      Z.lor share (Z.shiftl 1 (36 + (if side then 0 else 9) + Z.quot move 9))
    else share in
  let nextChunk :=
    if Z.rem move 9 >? 6 then
      Z.land (Z.shiftr (Z.lor share (Z.shiftr share 18)) (9 * (Z.rem move 9 - 7))) CHUNK
    else
      Z.land (Z.shiftr (Z.lor us them) (9 * Z.rem move 9)) CHUNK in
  let zone :=
    if (nextChunk =? CHUNK)
       || (Z.land (Z.shiftr (Z.lor share (Z.shiftr share 9)) (36 + Z.rem move 9)) 1 =? 1)
    then ZONE_ANY
    else Z.rem move 9 in
  mkBoard us them (Z.lor (Z.land share EXCLZONE) (Z.shiftl zone 54)).

(** ** Static evaluation *)

Definition evaluate (board : Board) (side : bool) : Eval :=
  let '(mkBoard us them share) := board in
  let decisiveEval := get EVAL_TABLE_LARGE (Z.land (Z.shiftr share 36) DBLCHUNK) in
  if (decisiveEval =? OUTCOME_WIN) || (decisiveEval =? OUTCOME_LOSS) then
    if side then decisiveEval else - decisiveEval
  else
    let large := Z.land (Z.lor (Z.shiftr share 36) (Z.shiftr share 45)) CHUNK in
    if large =? CHUNK then OUTCOME_DRAW
    else
      let evaluation := decisiveEval in
      let evaluation :=
        fold_left
          (fun evaluation i =>
             let usData := Z.land (Z.shiftr us (9 * i)) CHUNK in
             let themData := Z.land (Z.shiftr them (9 * i)) CHUNK in
             evaluation
             + (if (Z.land (Z.shiftr large i) 1 =? 1) || (Z.lor usData themData =? CHUNK)
                then 0
                else get EVAL_TABLE_SMALL (Z.lor (Z.shiftl themData 9) usData)))
          (keys 7) evaluation in
      let evaluation :=
        fold_left
          (fun evaluation i =>
             let usData := Z.land (Z.shiftr share (9 * i - 63)) CHUNK in
             let themData := Z.land (Z.shiftr share (9 * i - 45)) CHUNK in
             evaluation
             + (if (Z.land (Z.shiftr large i) 1 =? 1) || (Z.lor usData themData =? CHUNK)
                then 0
                else get EVAL_TABLE_SMALL (Z.lor (Z.shiftl themData 9) usData)))
          [7; 8] evaluation in
      if side then evaluation else - evaluation.

(** ** Search *)

(** [line[k] = move] on a principal variation.  A negative [k] names a
    property, not an element, and leaves the elements alone.  [k] is
    [maxDepth - depth] with [depth >= 1] and every line has length [maxDepth]
    ([alphaBeta_pv_length]), so the write never reaches past the end, where
    JavaScript would extend the array. *)
Definition set_at (line : list Move) (k : Z) (move : Move) : list Move :=
  if k <? 0 then line else <[Z.to_nat k := move]> line.

(** The loop [for (const move of moveList)] of [alphaBeta]; [child] is the
    recursive call on the position after [move], given the window. *)
Fixpoint search_moves (child : Move -> Eval -> Eval -> EvalAndPV)
  (slot_index : Z) (moveList : list Move) (alpha beta : Eval) (pv : list Move)
  : EvalAndPV :=
  match moveList with
  | [] => mkEvalAndPV alpha pv
  | move :: rest =>
      let '(mkEvalAndPV evaluation line) := child move (- beta) (- alpha) in
      let evaluation := - evaluation in
      let line := set_at line slot_index move in
      if evaluation >=? beta then mkEvalAndPV beta line
      else if evaluation >? alpha then search_moves child slot_index rest evaluation beta line
      else search_moves child slot_index rest alpha beta pv
  end.

(** [depth] and [maxDepth] are non-negative integers; the recursion is on
    [depth]. *)
Fixpoint alphaBeta (board : Board) (side : bool) (depth : nat)
  (alpha beta : Eval) (maxDepth : nat) : EvalAndPV :=
  match depth with
  | O =>
      let evaluation := evaluate board side in
      let adjusted_eval :=
        if evaluation =? OUTCOME_WIN then evaluation - Z.of_nat maxDepth + Z.of_nat depth
        else if evaluation =? OUTCOME_LOSS then evaluation + Z.of_nat maxDepth - Z.of_nat depth
        else evaluation in
      mkEvalAndPV adjusted_eval (replicate maxDepth NULL_MOVE)
  | S depth' =>
      let moveList := generateMoves board in
      if (Z.of_nat (length moveList) =? 0) then
        let evaluation :=
          get EVAL_TABLE_LARGE (Z.land (Z.shiftr (share board) 36) DBLCHUNK)
          * (if side then 1 else -1) in
        let adjusted_eval :=
          if evaluation =? OUTCOME_WIN then evaluation - Z.of_nat maxDepth + Z.of_nat depth
          else if evaluation =? OUTCOME_LOSS then evaluation + Z.of_nat maxDepth - Z.of_nat depth
          else OUTCOME_DRAW in
        mkEvalAndPV adjusted_eval (replicate maxDepth NULL_MOVE)
      else
        search_moves
          (fun move a b => alphaBeta (playMove board move side) (negb side) depth' a b maxDepth)
          (Z.of_nat maxDepth - Z.of_nat depth)
          moveList alpha beta (replicate maxDepth NULL_MOVE)
  end.

Definition alphaBetaRootCall (board : Board) (side : bool) (depth : nat) : EvalAndPV :=
  alphaBeta board side depth OUTCOME_LOSS OUTCOME_WIN depth.

(** ** Vocabulary of the properties *)

(** The cells of the line each slot of [lines] watches, most significant slot
    bit first: the three columns, the three rows, the main diagonal and the
    anti-diagonal. *)
Definition slot_cells : list (list Z) :=
  [[0; 3; 6]; [1; 4; 7]; [2; 5; 8];
   [0; 1; 2]; [3; 4; 5]; [6; 7; 8];
   [0; 4; 8]; [2; 4; 6]].

Definition slot_cell (s k : Z) : Z :=
  nth (Z.to_nat k) (nth (Z.to_nat s) slot_cells []) 0.

(** The nine-bit mask of the line of slot [s]. *)
Definition slot_line (s : Z) : Z :=
  fold_left (fun m c => Z.lor m (Z.shiftl 1 c)) (nth (Z.to_nat s) slot_cells []) 0.

(** The reading under test: every slot holds the number of marks on a line,
    for some assignment [a] of lines to slots that is the same for all grids. *)
Definition slots_hold_counts : Prop :=
  exists a : Z -> Z,
    (forall s, 0 <= s < 8 -> In (a s) grid_lines) /\
    (forall g s, 0 <= g < 512 -> 0 <= s < 8 ->
       slot (lines g) s = marks_on g (a s)).

(** Boolean form of the statements about one grid and one slot. *)
Definition slot_check (g s : Z) : bool :=
  existsb (Z.eqb (slot_line s)) grid_lines
  && forallb (fun k => Bool.eqb (Z.testbit (slot (lines g) s) (2 - k))
                         (Z.testbit g (slot_cell s k))) (keys 3)
  && (get popCount (slot (lines g) s) =? marks_on g (slot_line s))
  && Bool.eqb (slot (lines g) s =? 7) (completed g (slot_line s))
  && (0 <=? lines g) && (lines g <? 2 ^ 24)
  && Bool.eqb (linePresence g) (existsb (fun s => slot (lines g) s =? 7) (keys 8)).

(** The fields of a position, as [generateMoves] reads them. *)
Definition next_zone (b : Board) : Z := Z.land (Z.shiftr (share b) 54) 15.

(** Zone [z] is decided: its us-won (bit [36 + z]) or them-won (bit [45 + z])
    meta bit is set. *)
Definition zone_decided (b : Board) (z : Z) : bool :=
  Z.testbit (share b) (36 + z) || Z.testbit (share b) (45 + z).

(** The cell of move [m] carries a mark of either player: bit [m] of [us] or
    [them] for the zones 0..6, bit [m - 63] of either half of [share] for the
    zones 7 and 8. *)
Definition cell_marked (b : Board) (m : Z) : bool :=
  if m <? 63 then Z.testbit (us b) m || Z.testbit (them b) m
  else Z.testbit (share b) (m - 63) || Z.testbit (share b) (m - 63 + 18).

(** All nine cells of zone [z] are marked. *)
Definition zone_full (b : Board) (z : Z) : bool :=
  forallb (fun c => cell_marked b (9 * z + c)) (keys 9).

(** [playMove] in two stages.  First the marks: the cell bit and, when it
    completes a line, the meta bit; this is the code of [playMove] down to
    the computation of [nextChunk]. *)
Definition stage_mark (board : Board) (move : Move) (side : bool)
  : Bitboard * Bitboard * Bitboard :=
  let '(mkBoard us them share) := board in
  let '(us, them, share, lineOccupancy) :=
    if move >? 62 then
      let share := Z.lor share (Z.shiftl 1 (move - 63 + (if side then 0 else 18))) in
      (us, them, share,
       linePresence
         (Z.shiftr share (9 * Z.quot move 9 - 63 + (if side then 0 else 18))))
    else if side then
      let us := Z.lor us (Z.shiftl 1 move) in
      (us, them, share, linePresence (Z.shiftr us (9 * Z.quot move 9)))
    else
      let them := Z.lor them (Z.shiftl 1 move) in
      (us, them, share, linePresence (Z.shiftr them (9 * Z.quot move 9))) in
  let share :=
    if lineOccupancy then
      Z.lor share (Z.shiftl 1 (36 + (if side then 0 else 9) + Z.quot move 9))
    else share in
  (us, them, share).

(** Then the next zone, from the marked words. *)
Definition stage_zone (us them share : Bitboard) (move : Move) : Z :=
  let nextChunk :=
    if Z.rem move 9 >? 6 then
      Z.land (Z.shiftr (Z.lor share (Z.shiftr share 18)) (9 * (Z.rem move 9 - 7))) CHUNK
    else
      Z.land (Z.shiftr (Z.lor us them) (9 * Z.rem move 9)) CHUNK in
  if (nextChunk =? CHUNK)
     || (Z.land (Z.shiftr (Z.lor share (Z.shiftr share 9)) (36 + Z.rem move 9)) 1 =? 1)
  then ZONE_ANY
  else Z.rem move 9.

(** The test that sends the opponent anywhere: the target zone is full or
    decided, read on the marked words. *)
Definition sent_anywhere (u t s c : Z) : bool :=
  forallb (fun k => if c >? 6
                    then Z.testbit s (9 * (c - 7) + k) || Z.testbit s (9 * (c - 7) + k + 18)
                    else Z.testbit u (9 * c + k) || Z.testbit t (9 * c + k)) (keys 9)
  || (Z.testbit s (36 + c) || Z.testbit s (45 + c)).

(** Two [share] words that differ in the zone field only. *)
Definition same_but_zone (s' s : Z) : Prop :=
  forall i, 0 <= i -> ~ 54 <= i <= 57 -> Z.testbit s' i = Z.testbit s i.

(** Positions of a game: from [newBoard], by moves that [generateMoves]
    offers, the sides taking turns.  [reachable side P] holds when [P] is
    such a position with [side] to play next; either side may begin. *)
Inductive reachable : bool -> Board -> Prop :=
| reach_new (side : bool) : reachable side newBoard
| reach_play (side : bool) (P : Board) (m : Move) :
    reachable side P -> In m (generateMoves P) ->
    reachable (negb side) (playMove P m side).

(** The zone field names "any zone" or a zone that is not decided. *)
Definition zone_field_ok (b : Board) : Prop :=
  next_zone b = 9 \/ (0 <= next_zone b < 9 /\ zone_decided b (next_zone b) = false).

(** What [init] writes for one pair: the scan of the eight slots, the value
    stored in the large table, and the value stored in the small table when
    the pair reaches the last branch (the other branches leave the small
    table as filled, with 0). *)
Definition scan (us them : Bitboard) : LineScan :=
  scan_lines slot_offsets (lines us) (lines them) (mkLineScan 0 0 false false).

Definition large_entry (us them : Bitboard) : Eval :=
  if usWon (scan us them) then OUTCOME_WIN
  else if themWon (scan us them) then OUTCOME_LOSS
  else if get popCount (Z.lor us them) =? 9 then OUTCOME_DRAW
  else evaluationLarge (scan us them) + evaluationPos us them * SQ_BIG.

Definition small_write (us them : Bitboard) : option Eval :=
  if usWon (scan us them) then None
  else if themWon (scan us them) then None
  else if get popCount (Z.lor us them) =? 9 then None
  else Some (evaluationSmall (scan us them) + evaluationPos us them).

Definition small_entry (us them : Bitboard) : Eval :=
  default 0 (small_write us them).

(** The table index of a pair [(us, them)]. *)
Definition pair_index (ab : Z * Z) : Z := table_index (fst ab) (snd ab).

(** A table filled by a loop of optional writes. *)
Definition write_all {K} (idx : K -> Z) (val : K -> option Z)
  (ks : list K) (t : list Z) : list Z :=
  fold_left (fun t k => match val k with Some v => put t (idx k) v | None => t end) ks t.

(** Boolean form of the statement on the three decided kinds of grid:
    [hu] and [ht] say that [us] and [them] have a completed line, [full]
    that all cells are taken, [l] and [sm] are the two entries. *)
Definition decided_check_on (hu ht full : bool) (l sm : Z) : bool :=
  (if hu && negb ht then (l =? 1000000) && (sm =? 0) else true)
  && (if ht && negb hu then (l =? -1000000) && (sm =? 0) else true)
  && (if negb hu && negb ht && full then (l =? 0) && (sm =? 0) else true).

Definition decided_check (us them : Z) : bool :=
  if Z.land us them =? 0 then
    decided_check_on
      (has_completed_line us) (has_completed_line them) (Z.lor us them =? 511)
      (large_entry us them) (small_entry us them)
  else true.

(** A position with no move left and no mate on the meta-board: zone 0 is
    won by [us] (meta bit 36), every cell of the zones 1..8 carries a mark of
    [us], and the zone field says "any". *)
Definition stuck_board : Board :=
  mkBoard (Z.shiftl 1 63 - Z.shiftl 1 9) 0
    (Z.lor (Z.lor (Z.shiftl 1 18 - 1) (Z.shiftl 1 36)) (Z.shiftl ZONE_ANY 54)).

(** ** Vocabulary of the further properties *)

(** The meta-board holds a completed line of either player: the test that
    opens [generateMoves]. *)
Definition meta_line (b : Board) : bool :=
  linePresence (Z.shiftr (share b) 36) || linePresence (Z.shiftr (share b) 45).

(** The mark of one player on the cell of move [m]; [side = true] names the
    player of the [us] word (and of the low half of [share] for the zones 7
    and 8), [false] the player of [them]. *)
Definition cell_of (side : bool) (b : Board) (m : Z) : bool :=
  if m <? 63 then Z.testbit (if side then us b else them b) m
  else Z.testbit (share b) (m - 63 + (if side then 0 else 18)).

(** The meta bit that says this player has won zone [z]. *)
Definition won_bit (side : bool) (b : Board) (z : Z) : bool :=
  Z.testbit (share b) (36 + (if side then 0 else 9) + z).

(** The nine cells of zone [z] for one player, as [evaluate] slices them into
    [usData] and [themData]. *)
Definition zone_pattern (side : bool) (b : Board) (z : Z) : Z :=
  if z <? 7 then Z.land (Z.shiftr (if side then us b else them b) (9 * z)) CHUNK
  else Z.land (Z.shiftr (share b) (9 * z - 63 + (if side then 0 else 18))) CHUNK.

(** The form the positions of a game keep. *)
Record well_formed (b : Board) : Prop := mkWellFormed {
  wf_zone : zone_field_ok b;
  wf_disjoint : forall m, 0 <= m < 81 -> cell_of true b m && cell_of false b m = false;
  wf_won : forall side z, 0 <= z < 9 ->
    won_bit side b z = linePresence (zone_pattern side b z);
  wf_exclusive : forall z, 0 <= z < 9 -> won_bit true b z && won_bit false b z = false;
}.

(** A line of play from a position: moves that [generateMoves] offers, each
    played on the position the previous one leaves, the sides taking turns,
    until the line ends or holds null moves only. *)
Fixpoint legal_line (b : Board) (side : bool) (l : list Move) : Prop :=
  match l with
  | [] => True
  | m :: rest =>
      l = replicate (length l) NULL_MOVE
      \/ (In m (generateMoves b) /\ legal_line (playMove b m side) (negb side) rest)
  end.

(** The shape of the principal variation a search of [depth] plies answers:
    [maxDepth] entries, null moves before the slot of this depth, and a line
    of play from there on. *)
Definition pv_shape (b : Board) (side : bool) (depth maxDepth : nat)
  (line : list Move) : Prop :=
  length line = maxDepth
  /\ take (maxDepth - depth) line = replicate (maxDepth - depth) NULL_MOVE
  /\ legal_line b side (drop (maxDepth - depth) line).

(** The scan with the two players exchanged. *)
Definition flip_scan (st : LineScan) : LineScan :=
  mkLineScan (- evaluationLarge st) (- evaluationSmall st) (themWon st) (usWon st).

(** A score is a mate score within [maxDepth] of a win or of a loss, or a
    heuristic value of magnitude at most 7722. *)
Definition score_shape (maxDepth : nat) (v : Eval) : Prop :=
  OUTCOME_WIN - Z.of_nat maxDepth <= v <= OUTCOME_WIN
  \/ OUTCOME_LOSS <= v <= OUTCOME_LOSS + Z.of_nat maxDepth
  \/ -7722 <= v <= 7722.

(** ** The user interface: [calculate-game-status.ts] and the move names *)

(** [enum Occupancy { X, O, Free }] *)
Module Occupancy.
Inductive t : Set := X | O | Free.

Definition eqb (a b : t) : bool :=
  match a, b with
  | X, X | O, O | Free, Free => true
  | _, _ => false
  end.
End Occupancy.

(** [enum GameStatus { X, O, Draw, Free }] *)
Module GameStatus.
Inductive t : Set := X | O | Draw | Free.

Definition eqb (a b : t) : bool :=
  match a, b with
  | X, X | O, O | Draw, Draw | Free, Free => true
  | _, _ => false
  end.
End GameStatus.

(** [1 << idx] on JavaScript numbers: the shift count is taken modulo 32 and
    the result is a signed 32-bit integer, so a count of 31 gives -2^31.
    [|] and [&] on such integers are [Z.lor] and [Z.land]. *)
Definition shl_one (idx : Z) : Z :=
  if idx mod 32 =? 31 then -2147483648 else Z.shiftl 1 (idx mod 32).

(** The mask of the cells of [grid] that hold [who]: the [xLines] and
    [oLines] of [calculateGameStatus]. *)
Definition cell_mask (who : Occupancy.t) (grid : list Occupancy.t) : Z :=
  fold_left (fun acc x => Z.lor acc x)
    (map (fun '(idx, value) => if Occupancy.eqb value who then shl_one idx else 0)
       (entries grid))
    0.

(** The array [lines] of the file is [grid_lines]. *)
Definition calculateGameStatus (grid : list Occupancy.t) : GameStatus.t :=
  let xLines := cell_mask Occupancy.X grid in
  if existsb (fun line => Z.land line xLines =? line) grid_lines then GameStatus.X
  else
    let oLines := cell_mask Occupancy.O grid in
    if existsb (fun line => Z.land line oLines =? line) grid_lines then GameStatus.O
    else if forallb (fun value => negb (Occupancy.eqb value Occupancy.Free)) grid
    then GameStatus.Draw
    else GameStatus.Free.

Definition zoneStrings : list string :=
  ["NW"; "N"; "NE"; "W"; "C"; "E"; "SW"; "S"; "SE"]%string.

(** [moveString] on an integer move (a [bigint] of the engine, or an integer
    [number]).  The two indices are below 9 when the guard lets the move
    through, so the reads of [zoneStrings] are in range. *)
Definition moveString (move : Z) : string :=
  if (move <? 0) || (move >? 80) then ""%string
  else
    let bigZone := nth (Z.to_nat (move / 9)) zoneStrings ""%string in
    let smallZone := nth (Z.to_nat (Z.rem move 9)) zoneStrings ""%string in
    (bigZone ++ "/" ++ smallZone)%string.

(** Some line of [grid_lines] has all its cells held by [who] in [grid]. *)
Definition holds_line (who : Occupancy.t) (grid : list Occupancy.t) : bool :=
  existsb
    (fun line =>
       forallb (fun c => negb (Z.testbit line c)
                         || Occupancy.eqb (nth (Z.to_nat c) grid Occupancy.Free) who)
         (keys 9))
    grid_lines.

(** All grids of [n] cells. *)
Fixpoint all_grids (n : nat) : list (list Occupancy.t) :=
  match n with
  | O => [[]]
  | S n' =>
      flat_map (fun g => [Occupancy.X :: g; Occupancy.O :: g; Occupancy.Free :: g])
        (all_grids n')
  end.

Definition status_check (grid : list Occupancy.t) : bool :=
  GameStatus.eqb (calculateGameStatus grid)
    (if holds_line Occupancy.X grid then GameStatus.X
     else if holds_line Occupancy.O grid then GameStatus.O
     else if forallb (fun value => negb (Occupancy.eqb value Occupancy.Free)) grid
          then GameStatus.Draw
          else GameStatus.Free).

(** The cells of a zone as the interface holds them: X for the player of
    [us] (the side [true], who moves first), O for the player of [them]. *)
Definition grid_of_patterns (x o : Z) : list Occupancy.t :=
  map (fun c => if Z.testbit x c then Occupancy.X
                else if Z.testbit o c then Occupancy.O
                else Occupancy.Free)
    (keys 9).

Definition zone_grid (b : Board) (z : Z) : list Occupancy.t :=
  grid_of_patterns (zone_pattern true b z) (zone_pattern false b z).

Definition patterns_check (x o : Z) : bool :=
  if Z.land x o =? 0 then
    GameStatus.eqb (calculateGameStatus (grid_of_patterns x o))
      (if linePresence x then GameStatus.X
       else if linePresence o then GameStatus.O
       else if Z.lor x o =? 511 then GameStatus.Draw
       else GameStatus.Free)
  else true.

Definition moveString_check (m m' : Z) : bool :=
  negb (String.eqb (moveString m) "")
  && (negb (String.eqb (moveString m) (moveString m')) || (m =? m')).


(** ** The two players exchanged *)

(** The [width] bits of [s] from bit [from], moved to bit [to]. *)
Definition field (s from width to : Z) : Z :=
  Z.shiftl (Z.land (Z.shiftr s from) (Z.ones width)) to.

(** [share] with the halves of the two players exchanged: the cells of the
    zones 7 and 8 (bits 0..17 and 18..35) and the won bits (36..44 and
    45..53); the zone field stays. *)
Definition exchange_share (s : Z) : Z :=
  Z.lor (Z.lor (Z.lor (Z.lor (field s 18 18 0) (field s 0 18 18))
                  (field s 45 9 36)) (field s 36 9 45))
    (field s 54 4 54).

(** The position seen from the other player. *)
Definition exchange (b : Board) : Board :=
  mkBoard (them b) (us b) (exchange_share (share b)).

(** * Properties *)

(** ** Ranges *)

Lemma In_keys (n : nat) (k : Z) : 0 <= k < Z.of_nat n -> In k (keys n).
Proof.
  intros Hk. unfold keys. apply in_map_iff. exists (Z.to_nat k). split.
  - lia.
  - apply in_seq. lia.
Qed.

Lemma keys_In (n : nat) (k : Z) : In k (keys n) -> 0 <= k < Z.of_nat n.
Proof.
  unfold keys. rewrite in_map_iff. intros [i [<- Hi]]. apply in_seq in Hi. lia.
Qed.

(** A boolean check that holds on all of [keys n] holds on every index in
    range. *)
Lemma forallb_keys (n : nat) (f : Z -> bool) (k : Z) :
  forallb f (keys n) = true -> 0 <= k < Z.of_nat n -> f k = true.
Proof.
  intros Hall Hk. rewrite forallb_forall in Hall. apply Hall, In_keys, Hk.
Qed.

Lemma forallb_keys2 (n m : nat) (f : Z -> Z -> bool) (i j : Z) :
  forallb (fun i => forallb (f i) (keys m)) (keys n) = true ->
  0 <= i < Z.of_nat n -> 0 <= j < Z.of_nat m -> f i j = true.
Proof.
  intros Hall Hi Hj.
  apply (forallb_keys m (f i) j); [| exact Hj].
  apply (forallb_keys n (fun i => forallb (f i) (keys m)) i Hall Hi).
Qed.

(** ** Bit utilities *)

Lemma slot_check_all :
  forallb (fun g => forallb (slot_check g) (keys 8)) (keys 512) = true.
Proof. vm_compute. reflexivity. Qed.

Lemma linePresence_check_all :
  forallb (fun g => Bool.eqb (linePresence g) (has_completed_line g)) (keys 512) = true.
Proof. vm_compute. reflexivity. Qed.

(** The lines the eight slots watch: columns 0..2, rows 0..2, main diagonal,
    anti-diagonal; each of the eight lines has one slot. *)
Lemma slot_line_table :
  map slot_line (keys 8) = [73; 146; 292; 7; 56; 448; 273; 84].
Proof. reflexivity. Qed.

(** C1, as written, fails: the slot of the top row holds 7 for the grid with
    the top row marked, and no line carries seven marks. *)
Lemma lines_slots_are_not_counts : ~ slots_hold_counts.
Proof.
  intros [a [Hline Hcount]].
  specialize (Hcount 7 3 ltac:(lia) ltac:(lia)).
  specialize (Hline 3 ltac:(lia)).
  change (slot (lines 7) 3) with 7 in Hcount.
  simpl in Hline.
  repeat (destruct Hline as [Ha | Hline];
          [rewrite <- Ha in Hcount; vm_compute in Hcount; discriminate Hcount |]).
  exact Hline.
Qed.

(** C1, amended: for a nine-bit grid [g], slot [s] of the 24-bit word
    [lines g] is the 3-bit occupancy mask of the three cells of the line
    [slot_line s] (columns, rows, main diagonal, anti-diagonal, an assignment
    that does not depend on [g]): bit [2 - k] of the slot is the mark on the
    line's [k]-th cell, the population count of the slot is the number of
    marks on the line, and the slot is 7 exactly when the line is completed.
    [linePresence g] holds exactly when some slot is 7. *)
Theorem lines_slots_are_occupancy_masks (g s : Z) :
  0 <= g < 512 -> 0 <= s < 8 ->
  In (slot_line s) grid_lines
  /\ 0 <= lines g < 2 ^ 24
  /\ (forall k, 0 <= k < 3 ->
        Z.testbit (slot (lines g) s) (2 - k) = Z.testbit g (slot_cell s k))
  /\ get popCount (slot (lines g) s) = marks_on g (slot_line s)
  /\ (slot (lines g) s = 7 <-> completed g (slot_line s) = true)
  /\ (linePresence g = true <-> exists s', 0 <= s' < 8 /\ slot (lines g) s' = 7).
Proof.
  intros Hg Hs.
  pose proof (forallb_keys2 512 8 slot_check g s slot_check_all Hg Hs) as H.
  unfold slot_check in H.
  repeat (apply andb_prop in H; destruct H as [H ?]).
  repeat split.
  - apply existsb_exists in H. destruct H as [l [Hl Heq]].
    apply Z.eqb_eq in Heq. now rewrite Heq.
  - lia.
  - lia.
  - intros k Hk. apply Bool.eqb_prop.
    match goal with
    | Hf : forallb _ (keys 3) = true |- _ => exact (forallb_keys 3 _ k Hf Hk)
    end.
  - lia.
  - intros H7. apply Z.eqb_eq in H7.
    match goal with
    | He : Bool.eqb (_ =? 7) (completed _ _) = true |- _ =>
        apply Bool.eqb_prop in He; now rewrite <- He
    end.
  - intros Hc. apply Z.eqb_eq.
    match goal with
    | He : Bool.eqb (_ =? 7) (completed _ _) = true |- _ =>
        apply Bool.eqb_prop in He; now rewrite He
    end.
  - intros Hp.
    match goal with
    | He : Bool.eqb (linePresence _) _ = true |- _ =>
        apply Bool.eqb_prop in He; rewrite Hp in He; symmetry in He;
        apply existsb_exists in He; destruct He as [s' [Hin H7]]
    end.
    exists s'. split; [apply (keys_In 8), Hin | now apply Z.eqb_eq].
  - intros [s' [Hs' H7]].
    match goal with
    | He : Bool.eqb (linePresence _) _ = true |- _ =>
        apply Bool.eqb_prop in He; rewrite He
    end.
    apply existsb_exists. exists s'. split; [now apply (In_keys 8) | now apply Z.eqb_eq].
Qed.

Lemma lines_slots_are_occupancy_masks_witness :
  (0 <= 7 < 512 /\ 0 <= 3 < 8)
  /\ (slot (lines 7) 3 = 7 <-> completed 7 (slot_line 3) = true).
Proof.
  split; [lia |]. apply (lines_slots_are_occupancy_masks 7 3); lia.
Defined.

(** C2: for a nine-bit grid [g], [linePresence g] is true exactly when some
    row, column or diagonal has all three of its cells marked in [g]. *)
Theorem linePresence_iff_completed_line (g : Z) :
  0 <= g < 512 ->
  linePresence g = true <->
  exists line, In line grid_lines /\ Z.land g line = line.
Proof.
  intros Hg.
  pose proof (forallb_keys 512 _ g linePresence_check_all Hg) as H.
  apply Bool.eqb_prop in H. rewrite H. unfold has_completed_line.
  rewrite existsb_exists. unfold completed.
  split; intros [l [Hl Hc]]; exists l; split; auto; now apply Z.eqb_eq.
Qed.

Lemma linePresence_iff_completed_line_witness :
  0 <= 84 < 512
  /\ (linePresence 84 = true <->
      exists line, In line grid_lines /\ Z.land 84 line = line).
Proof.
  split; [lia |]. apply (linePresence_iff_completed_line 84). lia.
Defined.

(** ** Bits *)

Lemma land1_testbit (x i : Z) : Z.land (Z.shiftr x i) 1 = Z.b2z (Z.testbit x i).
Proof.
  change 1 with (Z.ones 1). rewrite Z.land_ones by lia.
  change (2 ^ 1) with 2. rewrite <- Z.bit0_mod.
  rewrite Z.shiftr_spec by lia. reflexivity.
Qed.

Lemma bit_clear_test (x i : Z) :
  (Z.land (Z.shiftr x i) 1 =? 0) = negb (Z.testbit x i).
Proof. rewrite land1_testbit. now destruct (Z.testbit x i). Qed.

Lemma bit_set_test (x i : Z) :
  (Z.land (Z.shiftr x i) 1 =? 1) = Z.testbit x i.
Proof. rewrite land1_testbit. now destruct (Z.testbit x i). Qed.

Lemma testbit_set (x k i : Z) :
  0 <= k -> 0 <= i ->
  Z.testbit (Z.lor x (Z.shiftl 1 k)) i = Z.testbit x i || (i =? k).
Proof.
  intros Hk Hi. rewrite Z.lor_spec, Z.shiftl_spec by lia.
  assert (Z.testbit 1 (i - k) = (i =? k)) as ->; [| reflexivity].
  destruct (Z.eqb_spec i k) as [-> | Hne].
  - now rewrite Z.sub_diag.
  - destruct (Z.ltb_spec i k).
    + apply Z.testbit_neg_r. lia.
    + apply Z.bits_above_log2; [lia |]. change (Z.log2 1) with 0. lia.
Qed.

Lemma testbit_CHUNK (k : Z) : 0 <= k -> Z.testbit CHUNK k = (k <? 9).
Proof. intros Hk. change CHUNK with (Z.ones 9). apply Z.testbit_ones_nonneg; lia. Qed.

Lemma testbit_EXCLZONE (i : Z) :
  0 <= i -> Z.testbit EXCLZONE i = (i <? 54) || ((58 <=? i) && (i <? 64)).
Proof.
  intros Hi.
  change EXCLZONE with (Z.lor (Z.shiftl (Z.ones 6) 58) (Z.ones 54)).
  rewrite Z.lor_spec, Z.shiftl_spec, (Z.testbit_ones_nonneg 54) by lia.
  destruct (Z.leb_spec 58 i).
  - rewrite Z.testbit_ones_nonneg by lia.
    destruct (Z.ltb_spec (i - 58) 6), (Z.ltb_spec i 64), (Z.ltb_spec i 54);
      simpl; try reflexivity; lia.
  - rewrite Z.testbit_neg_r by lia.
    destruct (Z.ltb_spec i 54); reflexivity.
Qed.

Lemma forallb_pointwise {A} (f g : A -> bool) (l : list A) :
  (forall x, In x l -> f x = g x) -> forallb f l = forallb g l.
Proof.
  induction l as [| a l IH]; intros H; simpl; [reflexivity |].
  rewrite (H a) by now left. rewrite IH; [reflexivity |].
  intros x Hx. apply H. now right.
Qed.

(** A nine-bit slice equals [CHUNK] exactly when its nine bits are set. *)
Lemma chunk_full (x : Z) :
  (Z.land x CHUNK =? CHUNK) = forallb (Z.testbit x) (keys 9).
Proof.
  apply Bool.eq_iff_eq_true. rewrite Z.eqb_eq, forallb_forall. split.
  - intros H k Hk. apply keys_In in Hk.
    assert (Hb : Z.testbit (Z.land x CHUNK) k = true).
    { rewrite H, testbit_CHUNK by lia. apply Z.ltb_lt. lia. }
    rewrite Z.land_spec in Hb. now apply andb_prop in Hb.
  - intros H. apply Z.bits_inj'. intros k Hk.
    rewrite Z.land_spec, testbit_CHUNK by lia.
    destruct (Z.ltb_spec k 9).
    + rewrite (H k); [reflexivity |]. apply (In_keys 9). lia.
    + apply andb_false_r.
Qed.

(** ** One concrete game step *)

(** C3: after [playMove newBoard 40 true] the [us] word is bit 40 alone,
    [them] is zero, the meta bits (36 to 53 of [share]) are zero, the next
    zone is 4, and [generateMoves] answers the eight moves 36..44 without
    40. *)
Theorem playMove_centre_of_centre :
  let P := playMove newBoard 40 true in
  us P = Z.shiftl 1 40
  /\ them P = 0
  /\ Z.land (Z.shiftr (share P) 36) DBLCHUNK = 0
  /\ Z.land (Z.shiftr (share P) 54) 15 = 4
  /\ generateMoves P = [36; 37; 38; 39; 41; 42; 43; 44]
  /\ length (generateMoves P) = 8%nat.
Proof. vm_compute. repeat split. Qed.

(** ** The two stages of [playMove] *)

Lemma playMove_stages (P : Board) (m : Move) (side : bool) :
  playMove P m side =
  let '(u, t, s) := stage_mark P m side in
  mkBoard u t (Z.lor (Z.land s EXCLZONE) (Z.shiftl (stage_zone u t s m) 54)).
Proof.
  destruct P as [u t s]. unfold playMove, stage_mark, stage_zone.
  destruct (m >? 62); [| destruct side];
    match goal with |- context [linePresence ?g] => destruct (linePresence g) end;
    reflexivity.
Qed.

(** Writing the zone field keeps the bits below it. *)
Lemma write_zone_low (s z i : Z) :
  0 <= i < 54 ->
  Z.testbit (Z.lor (Z.land s EXCLZONE) (Z.shiftl z 54)) i = Z.testbit s i.
Proof.
  intros Hi.
  rewrite Z.lor_spec, Z.land_spec, testbit_EXCLZONE, Z.shiftl_spec_low by lia.
  destruct (Z.ltb_spec i 54); [| lia].
  simpl. now rewrite andb_true_r, orb_false_r.
Qed.

(** The zone field reads back what was written, whatever it held before. *)
Lemma write_zone_read (s z : Z) :
  0 <= z < 16 ->
  Z.land (Z.shiftr (Z.lor (Z.land s EXCLZONE) (Z.shiftl z 54)) 54) 15 = z.
Proof.
  intros Hz. apply Z.bits_inj'. intros n Hn.
  rewrite Z.land_spec, Z.shiftr_spec, Z.lor_spec, Z.land_spec by lia.
  rewrite testbit_EXCLZONE, Z.shiftl_spec by lia.
  replace (n + 54 - 54) with n by lia.
  change 15 with (Z.ones 4). rewrite Z.testbit_ones_nonneg by lia.
  destruct (Z.ltb_spec n 4).
  - destruct (Z.ltb_spec (n + 54) 54); [lia |].
    destruct (Z.leb_spec 58 (n + 54)); [lia |].
    simpl. now rewrite andb_false_r, andb_true_r.
  - rewrite andb_false_r. symmetry.
    rewrite <- (Z.mod_small z (2 ^ 4)) by lia.
    apply Z.mod_pow2_bits_high. lia.
Qed.

Lemma stage_zone_range (u t s m : Z) :
  0 <= m < 81 -> 0 <= stage_zone u t s m < 16.
Proof.
  intros Hm. unfold stage_zone, ZONE_ANY.
  pose proof (Z.rem_bound_pos m 9 ltac:(lia) ltac:(lia)).
  match goal with |- context [if ?c then 9 else _] => destruct c end; lia.
Qed.

Lemma stage_zone_spec (u t s m : Z) :
  0 <= m < 81 ->
  stage_zone u t s m = if sent_anywhere u t s (m mod 9) then 9 else m mod 9.
Proof.
  intros Hm. unfold stage_zone, sent_anywhere, ZONE_ANY.
  rewrite Z.rem_mod_nonneg by lia.
  pose proof (Z.mod_pos_bound m 9 ltac:(lia)) as Hc.
  set (c := m mod 9) in *.
  rewrite bit_set_test, Z.lor_spec, Z.shiftr_spec by lia.
  replace (36 + c + 9) with (45 + c) by lia.
  assert (Hchunk :
    ((if c >? 6
      then Z.land (Z.shiftr (Z.lor s (Z.shiftr s 18)) (9 * (c - 7))) CHUNK
      else Z.land (Z.shiftr (Z.lor u t) (9 * c)) CHUNK) =? CHUNK)
    = forallb (fun k => if c >? 6
                        then Z.testbit s (9 * (c - 7) + k) || Z.testbit s (9 * (c - 7) + k + 18)
                        else Z.testbit u (9 * c + k) || Z.testbit t (9 * c + k)) (keys 9)).
  { destruct (Z.gtb_spec c 6); rewrite chunk_full; apply forallb_pointwise;
      intros k Hk; apply keys_In in Hk.
    - rewrite Z.shiftr_spec, Z.lor_spec, Z.shiftr_spec by lia.
      f_equal; f_equal; lia.
    - rewrite Z.shiftr_spec, Z.lor_spec by lia.
      f_equal; f_equal; lia. }
  rewrite Hchunk. reflexivity.
Qed.

(** On the position [playMove] returns, the test reads "full or decided". *)
Lemma sent_anywhere_result (u t s z c : Z) :
  0 <= c < 9 ->
  let Q := mkBoard u t (Z.lor (Z.land s EXCLZONE) (Z.shiftl z 54)) in
  sent_anywhere u t s c = zone_full Q c || zone_decided Q c.
Proof.
  intros Hc Q. unfold sent_anywhere, zone_full, zone_decided, Q. cbn [share].
  rewrite !write_zone_low by lia. f_equal.
  apply forallb_pointwise. intros k Hk. apply keys_In in Hk.
  unfold cell_marked. cbn [us them share].
  destruct (Z.gtb_spec c 6), (Z.ltb_spec (9 * c + k) 63); try lia.
  - rewrite !write_zone_low by lia. f_equal; f_equal; lia.
  - reflexivity.
Qed.

(** ** The next zone *)

(** The zone field after a move, read on the position returned. *)
Lemma playMove_zone_field (P : Board) (m : Move) (side : bool) :
  0 <= m < 81 ->
  (next_zone (playMove P m side) = 9 \/ next_zone (playMove P m side) = m mod 9)
  /\ (next_zone (playMove P m side) = 9 <->
      zone_decided (playMove P m side) (m mod 9) = true
      \/ zone_full (playMove P m side) (m mod 9) = true).
Proof.
  intros Hm. rewrite playMove_stages.
  destruct (stage_mark P m side) as [[u t] s].
  pose proof (Z.mod_pos_bound m 9 ltac:(lia)) as Hc.
  pose proof (sent_anywhere_result u t s (stage_zone u t s m) (m mod 9) Hc) as Hres.
  pose proof (stage_zone_spec u t s m Hm) as Hz.
  pose proof (stage_zone_range u t s m Hm) as Hr.
  cbv zeta in Hres. unfold next_zone. cbn [share].
  set (z := stage_zone u t s m) in *.
  rewrite write_zone_read by exact Hr.
  rewrite Hres in Hz.
  destruct (zone_full _ _), (zone_decided _ _); simpl in Hz;
    (split; [lia | split; [intros H; try (exfalso; lia); auto
                          | intros [H | H]; (exact Hz || discriminate H)]]).
Qed.

(** C5: for a move [m] in [0, 81), the next-zone field of
    [playMove P m side] is 9 or the zone [m mod 9]; it is 9 exactly when, in
    the position returned, zone [m mod 9] is decided or has all nine cells
    marked. *)
Theorem playMove_next_zone (P : Board) (m : Move) (side : bool) :
  0 <= m < 81 ->
  let Q := playMove P m side in
  (next_zone Q = 9 \/ next_zone Q = m mod 9)
  /\ (next_zone Q = 9 <->
      zone_decided Q (m mod 9) = true \/ zone_full Q (m mod 9) = true).
Proof.
  intros Hm Q. exact (playMove_zone_field P m side Hm).
Qed.

Lemma playMove_next_zone_witness :
  0 <= 40 < 81
  /\ (next_zone (playMove newBoard 40 true) = 9
      \/ next_zone (playMove newBoard 40 true) = 40 mod 9)
  /\ (next_zone (playMove newBoard 40 true) = 9 <->
      zone_decided (playMove newBoard 40 true) (40 mod 9) = true
      \/ zone_full (playMove newBoard 40 true) (40 mod 9) = true).
Proof.
  split; [lia |]. apply (playMove_next_zone newBoard 40 true). lia.
Defined.

(** ** The footprint of a move *)

(** [linePresence] reads the nine low bits of its argument only. *)
Lemma linePresence_low (x y : Z) :
  (forall k, 0 <= k < 9 -> Z.testbit x k = Z.testbit y k) ->
  linePresence x = linePresence y.
Proof.
  intros H. unfold linePresence. do 3 f_equal.
  apply map_ext_in. intros [i v] Hin.
  apply in_combine_l, keys_In in Hin. change (length PRESENCE_MAGICS) with 9%nat in Hin.
  rewrite !land1_testbit, H by lia. reflexivity.
Qed.

(** The marks of a move, spelled out: the cell bit in the word the move and
    the side select, and the meta bit when [won]. *)
Lemma stage_mark_spec (P : Board) (m : Move) (side : bool) :
  0 <= m < 81 ->
  exists won : bool,
    stage_mark P m side =
    (if (m <=? 62) && side then Z.lor (us P) (Z.shiftl 1 m) else us P,
     if (m <=? 62) && negb side then Z.lor (them P) (Z.shiftl 1 m) else them P,
     let s := if 63 <=? m
              then Z.lor (share P) (Z.shiftl 1 (m - 63 + (if side then 0 else 18)))
              else share P in
     if won then Z.lor s (Z.shiftl 1 (36 + (if side then 0 else 9) + m / 9)) else s).
Proof.
  intros Hm. destruct P as [u t s]. unfold stage_mark. cbn [us them share].
  rewrite Z.quot_div_nonneg by lia.
  destruct (Z.gtb_spec m 62), (Z.leb_spec m 62), (Z.leb_spec 63 m); try lia;
    destruct side; cbn [andb negb];
    match goal with |- context [linePresence ?g] => exists (linePresence g) end;
    reflexivity.
Qed.

(** Outside the zone field, writing it keeps the 64-bit word. *)
Lemma write_zone_keep (s z i : Z) :
  0 <= z < 16 -> 0 <= i < 54 \/ 58 <= i < 64 ->
  Z.testbit (Z.lor (Z.land s EXCLZONE) (Z.shiftl z 54)) i = Z.testbit s i.
Proof.
  intros Hz [Hi | Hi]; [now apply write_zone_low |].
  rewrite Z.lor_spec, Z.land_spec, testbit_EXCLZONE, Z.shiftl_spec by lia.
  destruct (Z.ltb_spec i 54), (Z.leb_spec 58 i), (Z.ltb_spec i 64); try lia.
  simpl. rewrite andb_true_r.
  assert (Z.testbit z (i - 54) = false) as ->.
  { rewrite <- (Z.mod_small z (2 ^ 4)) by lia. apply Z.mod_pow2_bits_high. lia. }
  apply orb_false_r.
Qed.

Lemma stage_mark_same_but_zone (u t s s' : Z) (m : Move) (side : bool) :
  0 <= m < 81 -> same_but_zone s' s ->
  exists u1 t1 s1 s1',
    stage_mark (mkBoard u t s) m side = (u1, t1, s1)
    /\ stage_mark (mkBoard u t s') m side = (u1, t1, s1')
    /\ same_but_zone s1' s1.
Proof.
  intros Hm Hs. unfold stage_mark.
  rewrite Z.quot_div_nonneg by lia.
  assert (Hq : 0 <= m / 9 < 9) by (split; [apply Z.div_pos | apply Z.div_lt_upper_bound]; lia).
  destruct (Z.gtb_spec m 62) as [Hbig | Hsmall].
  - assert (Hq7 : 7 <= m / 9) by (apply Z.div_le_lower_bound; lia).
    set (off := if side then 0 else 18).
    assert (Hoff : off = 0 \/ off = 18) by (destruct side; auto).
    assert (Hwon :
      linePresence (Z.shiftr (Z.lor s' (Z.shiftl 1 (m - 63 + off))) (9 * (m / 9) - 63 + off))
      = linePresence (Z.shiftr (Z.lor s (Z.shiftl 1 (m - 63 + off))) (9 * (m / 9) - 63 + off))).
    { apply linePresence_low. intros k Hk.
      rewrite !Z.shiftr_spec, !Z.lor_spec by lia.
      rewrite Hs by lia. reflexivity. }
    rewrite Hwon. clear Hwon.
    match goal with |- context [linePresence ?g] => destruct (linePresence g) end;
      do 4 eexists; (split; [reflexivity | split; [reflexivity |]]);
      intros i Hi Hz; rewrite !Z.lor_spec, Hs by assumption; reflexivity.
  - destruct side;
      match goal with |- context [linePresence ?g] => destruct (linePresence g) end;
      do 4 eexists; (split; [reflexivity | split; [reflexivity |]]);
      intros i Hi Hz; rewrite ?Z.lor_spec, Hs by assumption; reflexivity.
Qed.

Lemma sent_anywhere_same_but_zone (u t s s' c : Z) :
  0 <= c < 9 -> same_but_zone s' s ->
  sent_anywhere u t s' c = sent_anywhere u t s c.
Proof.
  intros Hc Hs. unfold sent_anywhere.
  rewrite !(Hs (36 + c)), !(Hs (45 + c)) by lia. f_equal.
  apply forallb_pointwise. intros k Hk. apply keys_In in Hk.
  destruct (Z.gtb_spec c 6); [| reflexivity].
  rewrite !(Hs (9 * (c - 7) + k)), !(Hs (9 * (c - 7) + k + 18)) by lia.
  reflexivity.
Qed.

(** The zone field is rewritten: what it held before the move has no
    influence on the position returned. *)
Lemma playMove_forgets_zone (u t s s' : Z) (m : Move) (side : bool) :
  0 <= m < 81 -> same_but_zone s' s ->
  playMove (mkBoard u t s') m side = playMove (mkBoard u t s) m side.
Proof.
  intros Hm Hs. rewrite !playMove_stages.
  destruct (stage_mark_same_but_zone u t s s' m side Hm Hs)
    as [u1 [t1 [s1 [s1' [E [E' H1]]]]]].
  rewrite E, E'.
  pose proof (Z.mod_pos_bound m 9 ltac:(lia)) as Hc.
  assert (Hz : stage_zone u1 t1 s1' m = stage_zone u1 t1 s1 m).
  { rewrite !stage_zone_spec by exact Hm.
    now rewrite (sent_anywhere_same_but_zone u1 t1 s1 s1' (m mod 9) Hc H1). }
  rewrite Hz. f_equal.
  apply Z.bits_inj'. intros i Hi.
  rewrite !Z.lor_spec, !Z.land_spec. f_equal.
  destruct (Z.le_gt_cases 54 i) as [H54 | H54];
    [destruct (Z.le_gt_cases i 57) as [H57 | H57] |].
  - rewrite testbit_EXCLZONE by lia.
    destruct (Z.ltb_spec i 54), (Z.leb_spec 58 i); lia.
  - rewrite H1 by lia. reflexivity.
  - rewrite H1 by lia. reflexivity.
Qed.

Lemma testbit_mark (b : bool) (x k i : Z) :
  0 <= k ->
  Z.testbit (if b then Z.lor x (Z.shiftl 1 k) else x) i
  = Z.testbit x i || (b && (i =? k)).
Proof.
  intros Hk. destruct b; cbn [andb]; [| now rewrite orb_false_r].
  destruct (Z.neg_nonneg_cases i) as [Hi | Hi].
  - rewrite !Z.testbit_neg_r by lia. destruct (Z.eqb_spec i k); [lia | reflexivity].
  - now apply testbit_set.
Qed.

(** Every bit of the position after a move, outside the zone field. *)
Lemma playMove_bits (P : Board) (m : Move) (side : bool) :
  0 <= m < 81 ->
  exists won : bool,
    (forall i, Z.testbit (us (playMove P m side)) i
               = Z.testbit (us P) i || ((m <=? 62) && side && (i =? m)))
    /\ (forall i, Z.testbit (them (playMove P m side)) i
                  = Z.testbit (them P) i || ((m <=? 62) && negb side && (i =? m)))
    /\ (forall i, 0 <= i < 54 \/ 58 <= i < 64 ->
          Z.testbit (share (playMove P m side)) i
          = Z.testbit (share P) i
            || ((63 <=? m) && (i =? m - 63 + (if side then 0 else 18)))
            || (won && (i =? 36 + (if side then 0 else 9) + m / 9))).
Proof.
  intros Hm. rewrite playMove_stages.
  destruct (stage_mark_spec P m side Hm) as [won E]. rewrite E. clear E.
  exists won. cbv beta iota zeta. cbn [us them share].
  assert (Hq : 0 <= m / 9 < 9)
    by (split; [apply Z.div_pos | apply Z.div_lt_upper_bound]; lia).
  repeat split.
  - intros i. apply testbit_mark. lia.
  - intros i. apply testbit_mark. lia.
  - intros i Hi.
    rewrite write_zone_keep; [| apply stage_zone_range; exact Hm | exact Hi].
    rewrite testbit_mark by (destruct side; lia).
    destruct (Z.leb_spec 63 m).
    + rewrite (testbit_mark true) by (destruct side; lia). reflexivity.
    + cbn [andb]. now rewrite orb_false_r.
Qed.

(** C10: a move never clears a mark and changes nothing outside its
    footprint.  Every set bit of [us], of [them] and of the bits 0..53 and
    58..63 of [share] stays set; [us] and [them] change at most in bit [m],
    and only for [m <= 62] and the side selected; within the 64-bit [share]
    a bit can change only if it is the cell bit
    [m - 63 + (side ? 0 : 18)] (for [m >= 63]), the meta bit
    [36 + (side ? 0 : 9) + m / 9], or one of the bits 54..57 of the zone
    field, which is rewritten whatever it held. *)
Theorem playMove_frame (P : Board) (m : Move) (side : bool) :
  0 <= m < 81 ->
  let Q := playMove P m side in
  (forall i, Z.testbit (us P) i = true -> Z.testbit (us Q) i = true)
  /\ (forall i, Z.testbit (them P) i = true -> Z.testbit (them Q) i = true)
  /\ (forall i, 0 <= i < 54 \/ 58 <= i < 64 ->
        Z.testbit (share P) i = true -> Z.testbit (share Q) i = true)
  /\ (forall i, Z.testbit (us Q) i <> Z.testbit (us P) i ->
        i = m /\ m <= 62 /\ side = true)
  /\ (forall i, Z.testbit (them Q) i <> Z.testbit (them P) i ->
        i = m /\ m <= 62 /\ side = false)
  /\ (forall i, 0 <= i < 64 -> Z.testbit (share Q) i <> Z.testbit (share P) i ->
        (63 <= m /\ i = m - 63 + (if side then 0 else 18))
        \/ i = 36 + (if side then 0 else 9) + m / 9
        \/ 54 <= i <= 57)
  /\ (next_zone Q = 9 \/ next_zone Q = m mod 9)
  /\ (forall s', same_but_zone s' (share P) ->
        playMove (mkBoard (us P) (them P) s') m side = Q).
Proof.
  intros Hm Q. subst Q.
  destruct (playMove_bits P m side Hm) as [won [Hu [Ht Hs]]].
  split; [| split; [| split; [| split; [| split; [| split; [| split]]]]]].
  - intros i Hi. rewrite Hu, Hi. reflexivity.
  - intros i Hi. rewrite Ht, Hi. reflexivity.
  - intros i Hr Hi. rewrite Hs, Hi by exact Hr. reflexivity.
  - intros i H. rewrite Hu in H.
    destruct (Z.testbit (us P) i), (Z.leb_spec m 62), side, (Z.eqb_spec i m);
      cbn in H; try congruence. repeat split; lia.
  - intros i H. rewrite Ht in H.
    destruct (Z.testbit (them P) i), (Z.leb_spec m 62), side, (Z.eqb_spec i m);
      cbn in H; try congruence. repeat split; lia.
  - intros i Hi Hne.
    destruct (Z.le_gt_cases 54 i) as [H54 | H54];
      [destruct (Z.le_gt_cases i 57) as [H57 | H57]; [now right; right |] |];
      (rewrite Hs in Hne by lia;
       destruct (Z.testbit (share P) i), (Z.leb_spec 63 m),
         (Z.eqb_spec i (m - 63 + (if side then 0 else 18))),
         (Z.eqb_spec i (36 + (if side then 0 else 9) + m / 9)), won;
       cbn in Hne; try congruence; auto).
  - exact (proj1 (playMove_zone_field P m side Hm)).
  - intros s' Hs'. destruct P as [u t s]. cbn [us them share] in *.
    now apply playMove_forgets_zone.
Qed.

Lemma playMove_frame_witness :
  0 <= 70 < 81
  /\ (next_zone (playMove newBoard 70 false) = 9
      \/ next_zone (playMove newBoard 70 false) = 70 mod 9).
Proof.
  split; [lia |]. apply (playMove_frame newBoard 70 false). lia.
Defined.

(** ** Legal moves *)

(** What [generateMoves] offers on a position whose zone field is sound. *)
Lemma generateMoves_sound (P : Board) (m : Move) :
  zone_field_ok P -> In m (generateMoves P) ->
  0 <= m < 81 /\ cell_marked P m = false /\ zone_decided P (m / 9) = false.
Proof.
  destruct P as [u t s]. unfold zone_field_ok, next_zone, generateMoves, zone_decided, cell_marked.
  cbn [us them share]. set (zone := Z.land (Z.shiftr s 54) 15).
  intros Hok Hin.
  destruct (linePresence (Z.shiftr s 36) || linePresence (Z.shiftr s 45)); [destruct Hin |].
  unfold ZONE_ANY in Hin.
  destruct (Z.eqb_spec zone 9) as [H9 | H9].
  - apply in_app_or in Hin. destruct Hin as [Hin | Hin];
      apply filter_In in Hin; destruct Hin as [Hk Hf];
      apply andb_prop in Hf; destruct Hf as [Hcell Hmeta];
      rewrite bit_clear_test in Hcell, Hmeta;
      apply negb_true_iff in Hcell, Hmeta.
    + apply keys_In in Hk.
      rewrite Z.quot_div_nonneg, Z.lor_spec, !Z.shiftr_spec in Hmeta
        by (try apply Z.div_pos; lia).
      rewrite Z.lor_spec in Hcell.
      destruct (Z.ltb_spec m 63); [| lia].
      replace (36 + m / 9) with (m / 9 + 36) by lia.
      replace (45 + m / 9) with (m / 9 + 45) by lia.
      repeat split; (lia || assumption).
    + apply in_map_iff in Hk. destruct Hk as [i [<- Hi]]. apply keys_In in Hi.
      rewrite Z.quot_div_nonneg, Z.lor_spec, !Z.shiftr_spec in Hmeta
        by (try apply Z.div_pos; lia).
      rewrite Z.lor_spec, Z.shiftr_spec in Hcell by lia.
      destruct (Z.ltb_spec (i + 63) 63); [lia |].
      replace (36 + (i + 63) / 9) with ((i + 63) / 9 + 36) by lia.
      replace (45 + (i + 63) / 9) with ((i + 63) / 9 + 45) by lia.
      rewrite (orb_comm (Z.testbit s (i + 63 - 63))).
      repeat split; (lia || assumption).
  - destruct Hok as [Hok | [Hz Hdec]]; [contradiction |].
    assert (Hdiv : forall i, 0 <= i < 9 -> (i + 9 * zone) / 9 = zone).
    { intros i Hi. rewrite Z.mul_comm, Z.div_add by lia. rewrite Z.div_small; lia. }
    destruct ((zone =? 7) || (zone =? 8)) eqn:H78;
      apply filter_In in Hin; destruct Hin as [Hk Hcell];
      apply in_map_iff in Hk; destruct Hk as [i [<- Hi]]; apply keys_In in Hi;
      rewrite bit_clear_test in Hcell; apply negb_true_iff in Hcell;
      rewrite Hdiv by lia.
    + assert (7 <= zone) by lia.
      rewrite Z.lor_spec, Z.shiftr_spec in Hcell by lia.
      destruct (Z.ltb_spec (i + 9 * zone) 63); [lia |].
      rewrite (orb_comm (Z.testbit s (i + 9 * zone - 63))).
      repeat split; (lia || assumption).
    + assert (zone <= 6) by lia.
      rewrite Z.lor_spec in Hcell.
      destruct (Z.ltb_spec (i + 9 * zone) 63); [| lia].
      repeat split; (lia || assumption).
Qed.

(** The zone field of every position of a game is sound. *)
Lemma reachable_zone_field_ok (side : bool) (P : Board) :
  reachable side P -> zone_field_ok P.
Proof.
  induction 1 as [side | side P m Hreach IH Hin].
  - left. reflexivity.
  - destruct (generateMoves_sound P m IH Hin) as [Hm _].
    destruct (playMove_zone_field P m side Hm) as [Hzone Hany].
    pose proof (Z.mod_pos_bound m 9 ltac:(lia)) as Hc.
    destruct Hzone as [H9 | Hc']; [now left |].
    right. rewrite Hc'. split; [exact Hc |].
    destruct (zone_decided (playMove P m side) (m mod 9)) eqn:Hdec; [| reflexivity].
    assert (next_zone (playMove P m side) = 9) by (apply Hany; now left). lia.
Qed.

(** C7: on every position of a game, each move of [generateMoves] lands on a
    cell that carries no mark of either player, in a zone [m / 9] with
    neither meta bit set. *)
Theorem generateMoves_legal (side : bool) (P : Board) (m : Move) :
  reachable side P -> In m (generateMoves P) ->
  0 <= m < 81 /\ cell_marked P m = false /\ zone_decided P (m / 9) = false.
Proof.
  intros Hreach Hin.
  apply generateMoves_sound; [apply (reachable_zone_field_ok side), Hreach | exact Hin].
Qed.

Lemma generateMoves_legal_witness :
  (reachable true newBoard /\ In 40 (generateMoves newBoard))
  /\ 0 <= 40 < 81
  /\ cell_marked newBoard 40 = false
  /\ zone_decided newBoard (40 / 9) = false.
Proof.
  assert (Hin : In 40 (generateMoves newBoard)) by (vm_compute; tauto).
  split.
  - split; [apply reach_new | exact Hin].
  - exact (generateMoves_legal true newBoard 40 (reach_new true) Hin).
Defined.

(** ** The tables built by [init] *)

Section WriteAll.
Context {K : Type} (idx : K -> Z) (val : K -> option Z).

Lemma write_all_length (ks : list K) (t : list Z) :
  length (write_all idx val ks t) = length t.
Proof.
  revert t. induction ks as [| k ks IH]; intros t; [reflexivity |].
  unfold write_all in *. cbn [fold_left]. rewrite IH.
  destruct (val k); [apply length_insert | reflexivity].
Qed.

(** An index no key writes keeps its value. *)
Lemma write_all_untouched (ks : list K) (t : list Z) (j : Z) :
  0 <= j ->
  (forall k, In k ks -> idx k = j -> val k = None) ->
  (forall k, In k ks -> 0 <= idx k) ->
  get (write_all idx val ks t) j = get t j.
Proof.
  intros Hj. revert t. induction ks as [| k ks IH]; intros t Hnone Hpos; [reflexivity |].
  unfold write_all in *. cbn [fold_left].
  rewrite IH by (intros; (apply Hnone || apply Hpos); auto using in_cons).
  destruct (val k) as [v |] eqn:Hv; [| reflexivity].
  unfold get, put. rewrite list_lookup_insert_ne; [reflexivity |].
  intros Heq. apply Z2Nat.inj in Heq; [| apply Hpos; now left | exact Hj].
  rewrite (Hnone k) in Hv by (auto using in_eq). discriminate.
Qed.

(** An index written by one key, and by no other key with another value,
    holds that value. *)
Lemma write_all_written (ks : list K) (t : list Z) (k0 : K) (v : Z) :
  val k0 = Some v ->
  (forall k, In k ks -> idx k = idx k0 -> val k = Some v) ->
  (forall k, In k ks -> 0 <= idx k) ->
  0 <= idx k0 < Z.of_nat (length t) ->
  In k0 ks \/ get t (idx k0) = v ->
  get (write_all idx val ks t) (idx k0) = v.
Proof.
  intros Hv. revert t.
  induction ks as [| k ks IH]; intros t Hsame Hpos Hlen Hin.
  - destruct Hin as [[] | Hin]. exact Hin.
  - unfold write_all in *. cbn [fold_left].
    assert (Hsame' : forall k', In k' ks -> idx k' = idx k0 -> val k' = Some v)
      by (intros; apply Hsame; auto using in_cons).
    assert (Hpos' : forall k', In k' ks -> 0 <= idx k')
      by (intros; apply Hpos; auto using in_cons).
    destruct (Z.eq_dec (idx k) (idx k0)) as [Heq | Hne].
    + rewrite (Hsame k (in_eq _ _) Heq).
      apply IH; auto.
      * unfold put. rewrite length_insert. exact Hlen.
      * right. unfold get, put. rewrite Heq, list_lookup_insert_eq by lia. reflexivity.
    + assert (Hin' : In k0 ks \/ get t (idx k0) = v).
      { destruct Hin as [[-> | Hin] | Hin]; [contradiction | now left | now right]. }
      destruct (val k) as [w |]; [| now apply IH].
      apply IH; auto.
      * unfold put. rewrite length_insert. exact Hlen.
      * destruct Hin' as [Hin' | Hin']; [now left | right].
        unfold get, put. rewrite list_lookup_insert_ne; [exact Hin' |].
        intros E. apply Hne. apply Z2Nat.inj in E; [exact E | apply Hpos; now left | lia].
Qed.
End WriteAll.

(** Two nested loops visit the pairs of [list_prod]. *)
Lemma fold_left_nested {A B S} (f : A -> B -> S -> S) (la : list A) (lb : list B) (s : S) :
  fold_left (fun s a => fold_left (fun s b => f a b s) lb s) la s
  = fold_left (fun s ab => f (fst ab) (snd ab) s) (list_prod la lb) s.
Proof.
  revert s. induction la as [| a la IH]; intros s; [reflexivity |].
  cbn [fold_left list_prod]. rewrite fold_left_app, IH. f_equal.
  clear IH. revert s. induction lb as [| b lb IHb]; intros s; [reflexivity |].
  cbn [map fold_left fst snd]. apply IHb.
Qed.

Lemma init_pair_tables (us them : Z) (t : Tables) :
  init_pair us them t =
  mkTables (put (large t) (table_index us them) (large_entry us them))
    (match small_write us them with
     | Some v => put (small t) (table_index us them) v
     | None => small t
     end).
Proof.
  unfold init_pair, large_entry, small_write, scan. cbv zeta.
  generalize (scan_lines slot_offsets (lines us) (lines them) (mkLineScan 0 0 false false)).
  intros st.
  destruct (usWon st); [reflexivity |].
  destruct (themWon st); [reflexivity |].
  destruct (get popCount (Z.lor us them) =? 9); reflexivity.
Qed.

(** A loop whose body writes one entry of each table fills them as
    [write_all] does. *)
Section TableLoop.
Context {K : Type} (step : K -> Tables -> Tables).
Context (idx : K -> Z) (vl vs : K -> option Z).
Hypothesis step_writes : forall k t,
  step k t = mkTables
    (match vl k with Some v => put (large t) (idx k) v | None => large t end)
    (match vs k with Some v => put (small t) (idx k) v | None => small t end).

Lemma fold_left_tables (l : list K) (t : Tables) :
  fold_left (fun t k => step k t) l t
  = mkTables (write_all idx vl l (large t)) (write_all idx vs l (small t)).
Proof.
  revert t. induction l as [| k l IH]; intros t.
  - destruct t. reflexivity.
  - unfold write_all in *. cbn [fold_left].
    rewrite IH, step_writes. reflexivity.
Qed.
End TableLoop.

Lemma init_from (l1 l2 : list Z) (tl ts : list Z) :
  fold_left (fun t us => fold_left (fun t them => init_pair us them t) l2 t) l1
    (mkTables tl ts)
  = mkTables
      (write_all pair_index (fun ab => Some (large_entry (fst ab) (snd ab)))
         (list_prod l1 l2) tl)
      (write_all pair_index (fun ab => small_write (fst ab) (snd ab))
         (list_prod l1 l2) ts).
Proof.
  rewrite (fold_left_nested (fun us them t => init_pair us them t)).
  rewrite (fold_left_tables (fun ab t => init_pair (fst ab) (snd ab) t) pair_index
             (fun ab => Some (large_entry (fst ab) (snd ab)))
             (fun ab => small_write (fst ab) (snd ab))).
  - reflexivity.
  - intros [a b] t. apply init_pair_tables.
Qed.

Lemma init_tables :
  init = mkTables
    (write_all pair_index (fun ab => Some (large_entry (fst ab) (snd ab)))
       (list_prod (keys 512) (keys 512)) (replicate TABLE_SIZE 0))
    (write_all pair_index (fun ab => small_write (fst ab) (snd ab))
       (list_prod (keys 512) (keys 512)) (replicate TABLE_SIZE 0)).
Proof.
  exact (init_from (keys 512) (keys 512) (replicate TABLE_SIZE 0) (replicate TABLE_SIZE 0)).
Qed.

(** The index of a pair of nine-bit grids is [them * 512 + us]. *)
Lemma table_index_sum (us them : Z) :
  0 <= us < 512 -> table_index us them = them * 512 + us.
Proof.
  intros Hus. unfold table_index.
  assert (Hdisj : Z.land (Z.shiftl them 9) us = 0).
  { apply Z.bits_inj'. intros n Hn. rewrite Z.land_spec, Z.bits_0.
    destruct (Z.lt_ge_cases n 9).
    - now rewrite Z.shiftl_spec_low.
    - rewrite <- (Z.mod_small us (2 ^ 9)) by lia.
      rewrite Z.mod_pow2_bits_high by lia. apply andb_false_r. }
  rewrite <- Z.lxor_lor, <- Z.add_nocarry_lxor by exact Hdisj.
  rewrite Z.shiftl_mul_pow2 by lia. reflexivity.
Qed.

Lemma pair_index_inj (k k0 : Z * Z) :
  In k (list_prod (keys 512) (keys 512)) ->
  In k0 (list_prod (keys 512) (keys 512)) ->
  pair_index k = pair_index k0 -> k = k0.
Proof.
  destruct k as [a b], k0 as [a0 b0]. rewrite !in_prod_iff.
  intros [Ha Hb] [Ha0 Hb0]. apply keys_In in Ha, Hb, Ha0, Hb0.
  unfold pair_index. cbn [fst snd]. rewrite !table_index_sum by lia.
  intros E. f_equal; lia.
Qed.

Lemma pair_index_range (k : Z * Z) :
  In k (list_prod (keys 512) (keys 512)) -> 0 <= pair_index k < 262144.
Proof.
  destruct k as [a b]. rewrite in_prod_iff. intros [Ha Hb].
  apply keys_In in Ha, Hb. unfold pair_index. cbn [fst snd].
  rewrite table_index_sum by lia. lia.
Qed.

Lemma EVAL_TABLE_LARGE_eq :
  EVAL_TABLE_LARGE =
  write_all pair_index (fun ab => Some (large_entry (fst ab) (snd ab)))
    (list_prod (keys 512) (keys 512)) (replicate TABLE_SIZE 0).
Proof. unfold EVAL_TABLE_LARGE, TABLES. rewrite init_tables. reflexivity. Qed.

Lemma EVAL_TABLE_SMALL_eq :
  EVAL_TABLE_SMALL =
  write_all pair_index (fun ab => small_write (fst ab) (snd ab))
    (list_prod (keys 512) (keys 512)) (replicate TABLE_SIZE 0).
Proof. unfold EVAL_TABLE_SMALL, TABLES. rewrite init_tables. reflexivity. Qed.

(** Both tables keep their 262144 entries. *)
Lemma EVAL_TABLE_length :
  length EVAL_TABLE_LARGE = TABLE_SIZE /\ length EVAL_TABLE_SMALL = TABLE_SIZE.
Proof.
  rewrite EVAL_TABLE_LARGE_eq, EVAL_TABLE_SMALL_eq, !write_all_length.
  split; apply length_replicate.
Qed.

(** The reads of [evaluate] and [alphaBeta] stay inside the tables. *)
Lemma DBLCHUNK_index_range (x : Z) :
  (Z.to_nat (Z.land x DBLCHUNK) < length EVAL_TABLE_LARGE)%nat.
Proof.
  rewrite (proj1 EVAL_TABLE_length). unfold TABLE_SIZE.
  change DBLCHUNK with (Z.ones 18). rewrite Z.land_ones by lia.
  pose proof (Z.mod_pos_bound x (2 ^ 18) ltac:(lia)). lia.
Qed.

(** The entry of a pair of nine-bit grids in the large table is the value
    [init] computes for the pair. *)
Lemma EVAL_TABLE_LARGE_entry (us them : Z) :
  0 <= us < 512 -> 0 <= them < 512 ->
  get EVAL_TABLE_LARGE (table_index us them) = large_entry us them.
Proof.
  intros Hus Hthem. rewrite EVAL_TABLE_LARGE_eq.
  assert (Hin : In (us, them) (list_prod (keys 512) (keys 512)))
    by (apply in_prod; apply (In_keys 512); lia).
  apply (write_all_written pair_index
           (fun ab => Some (large_entry (fst ab) (snd ab))) _ _ (us, them)).
  - reflexivity.
  - intros k Hk E. now rewrite (pair_index_inj k (us, them) Hk Hin E).
  - intros k Hk. apply pair_index_range, Hk.
  - rewrite length_replicate. unfold TABLE_SIZE. rewrite Z2Nat.id by lia.
    apply pair_index_range, Hin.
  - now left.
Qed.

(** The entry in the small table is the value written in the last branch of
    [init], and the initial 0 for a pair that takes another branch. *)
Lemma EVAL_TABLE_SMALL_entry (us them : Z) :
  0 <= us < 512 -> 0 <= them < 512 ->
  get EVAL_TABLE_SMALL (table_index us them) = small_entry us them.
Proof.
  intros Hus Hthem. rewrite EVAL_TABLE_SMALL_eq.
  assert (Hin : In (us, them) (list_prod (keys 512) (keys 512)))
    by (apply in_prod; apply (In_keys 512); lia).
  pose proof (pair_index_range _ Hin) as Hr.
  unfold small_entry. destruct (small_write us them) as [v |] eqn:Hw.
  - apply (write_all_written pair_index
             (fun ab => small_write (fst ab) (snd ab)) _ _ (us, them)).
    + exact Hw.
    + intros k Hk E. now rewrite (pair_index_inj k (us, them) Hk Hin E).
    + intros k Hk. apply pair_index_range, Hk.
    + rewrite length_replicate. unfold TABLE_SIZE. rewrite Z2Nat.id by lia. exact Hr.
    + now left.
  - change (table_index us them) with (pair_index (us, them)).
    rewrite write_all_untouched.
    + unfold get. rewrite lookup_replicate_2; [reflexivity |].
      unfold TABLE_SIZE. lia.
    + lia.
    + intros k Hk E. now rewrite (pair_index_inj k (us, them) Hk Hin E).
    + intros k Hk. apply pair_index_range, Hk.
Qed.

Lemma decided_check_all :
  forallb (fun us => forallb (decided_check us) (keys 512)) (keys 512) = true.
Proof. vm_compute. reflexivity. Qed.

Lemma decided_check_on_true (hu ht full : bool) (l sm : Z) :
  decided_check_on hu ht full l sm = true ->
  (hu = true -> ht = false -> l = 1000000 /\ sm = 0)
  /\ (ht = true -> hu = false -> l = -1000000 /\ sm = 0)
  /\ (hu = false -> ht = false -> full = true -> l = 0 /\ sm = 0).
Proof.
  unfold decided_check_on. intros H.
  repeat split; intros; subst; simpl in H; lia.
Qed.

(** C6: for nine-bit grids [us] and [them] with no common cell, the tables
    built by [init] hold, at index [(them << 9) | us]: 1000000 and 0 when
    [us] has a completed line and [them] has none; -1000000 and 0 when
    [them] has one and [us] has none; 0 and 0 when neither has one and the
    nine cells are all taken. *)
Theorem init_decided_entries (us them : Z) :
  0 <= us < 512 -> 0 <= them < 512 -> Z.land us them = 0 ->
  (has_completed_line us = true -> has_completed_line them = false ->
     get EVAL_TABLE_LARGE (Z.lor (Z.shiftl them 9) us) = 1000000
     /\ get EVAL_TABLE_SMALL (Z.lor (Z.shiftl them 9) us) = 0)
  /\ (has_completed_line them = true -> has_completed_line us = false ->
        get EVAL_TABLE_LARGE (Z.lor (Z.shiftl them 9) us) = -1000000
        /\ get EVAL_TABLE_SMALL (Z.lor (Z.shiftl them 9) us) = 0)
  /\ (has_completed_line us = false -> has_completed_line them = false ->
        Z.lor us them = 511 ->
        get EVAL_TABLE_LARGE (Z.lor (Z.shiftl them 9) us) = 0
        /\ get EVAL_TABLE_SMALL (Z.lor (Z.shiftl them 9) us) = 0).
Proof.
  intros Hus Hthem Hdisj.
  pose proof (EVAL_TABLE_LARGE_entry us them Hus Hthem) as HL.
  pose proof (EVAL_TABLE_SMALL_entry us them Hus Hthem) as HS.
  unfold table_index in HL, HS. rewrite HL, HS. clear HL HS.
  pose proof (forallb_keys2 512 512 decided_check us them decided_check_all Hus Hthem) as H.
  unfold decided_check in H.
  apply Z.eqb_eq in Hdisj. rewrite Hdisj in H.
  apply decided_check_on_true in H. destruct H as [H1 [H2 H3]].
  split; [exact H1 | split; [exact H2 |]].
  intros Hu Ht Hfull. apply H3; [exact Hu | exact Ht |].
  apply Z.eqb_eq. exact Hfull.
Qed.

Lemma init_decided_entries_witness :
  (0 <= 7 < 512 /\ 0 <= 0 < 512 /\ Z.land 7 0 = 0 /\
   has_completed_line 7 = true /\ has_completed_line 0 = false)
  /\ get EVAL_TABLE_LARGE (Z.lor (Z.shiftl 0 9) 7) = 1000000
  /\ get EVAL_TABLE_SMALL (Z.lor (Z.shiftl 0 9) 7) = 0.
Proof.
  split.
  - repeat split; (lia || reflexivity).
  - exact (proj1 (init_decided_entries 7 0 ltac:(lia) ltac:(lia) eq_refl) eq_refl eq_refl).
Defined.

(** ** Static evaluation *)

(** C8: the evaluation for one side is the negation of the evaluation for
    the other. *)
Theorem evaluate_negates (P : Board) :
  evaluate P true = - evaluate P false.
Proof.
  destruct P as [u t s]. unfold evaluate.
  destruct (_ || _); [lia |].
  destruct (_ =? CHUNK); [reflexivity | lia].
Qed.

(** ** Search *)

(** One step of the recursion, for a positive depth. *)
Lemma alphaBeta_step (board : Board) (side : bool) (depth' : nat)
  (alpha beta : Eval) (maxDepth : nat) :
  alphaBeta board side (S depth') alpha beta maxDepth =
  let depth := S depth' in
  let moveList := generateMoves board in
  if (Z.of_nat (length moveList) =? 0) then
    let evaluation :=
      get EVAL_TABLE_LARGE (Z.land (Z.shiftr (share board) 36) DBLCHUNK)
      * (if side then 1 else -1) in
    let adjusted_eval :=
      if evaluation =? OUTCOME_WIN then evaluation - Z.of_nat maxDepth + Z.of_nat depth
      else if evaluation =? OUTCOME_LOSS then evaluation + Z.of_nat maxDepth - Z.of_nat depth
      else OUTCOME_DRAW in
    mkEvalAndPV adjusted_eval (replicate maxDepth NULL_MOVE)
  else
    search_moves
      (fun move a b => alphaBeta (playMove board move side) (negb side) depth' a b maxDepth)
      (Z.of_nat maxDepth - Z.of_nat depth)
      moveList alpha beta (replicate maxDepth NULL_MOVE).
Proof. reflexivity. Qed.

Lemma set_at_length (line : list Move) (k : Z) (move : Move) :
  length (set_at line k move) = length line.
Proof. unfold set_at. destruct (k <? 0); [reflexivity | apply length_insert]. Qed.

Section Loop.
Variable child : Move -> Eval -> Eval -> EvalAndPV.
Variable slot_index : Z.

(** The loop is fail-hard: inside a window it answers inside the window. *)
Lemma search_moves_window (moveList : list Move) (alpha beta : Eval) (line : list Move) :
  alpha <= beta ->
  alpha <= evaluation (search_moves child slot_index moveList alpha beta line) <= beta.
Proof.
  revert alpha line.
  induction moveList as [| move rest IH]; intros alpha line Hwin; cbn [search_moves].
  - cbn [evaluation]. lia.
  - destruct (child move (- beta) (- alpha)) as [e l].
    destruct (Z.geb_spec (- e) beta); [cbn [evaluation]; lia |].
    destruct (Z.gtb_spec (- e) alpha).
    + specialize (IH (- e) (set_at l slot_index move) ltac:(lia)). lia.
    + apply IH. exact Hwin.
Qed.

(** The loop keeps the length of the lines it handles. *)
Lemma search_moves_length (n : nat) (moveList : list Move) (alpha beta : Eval)
  (line : list Move) :
  (forall move a b, length (pv (child move a b)) = n) ->
  length line = n ->
  length (pv (search_moves child slot_index moveList alpha beta line)) = n.
Proof.
  intros Hchild. revert alpha line.
  induction moveList as [| move rest IH]; intros alpha line Hline; cbn [search_moves].
  - exact Hline.
  - pose proof (Hchild move (- beta) (- alpha)) as Hc.
    destruct (child move (- beta) (- alpha)) as [e l]. cbn [pv] in Hc.
    destruct (- e >=? beta); [cbn [pv]; now rewrite set_at_length |].
    destruct (- e >? alpha); apply IH; [now rewrite set_at_length | exact Hline].
Qed.
End Loop.

(** Every principal variation has length [maxDepth]. *)
Lemma alphaBeta_pv_length (depth : nat) :
  forall board side alpha beta maxDepth,
    length (pv (alphaBeta board side depth alpha beta maxDepth)) = maxDepth.
Proof.
  induction depth as [| depth' IH]; intros board side alpha beta maxDepth.
  - apply length_replicate.
  - rewrite alphaBeta_step. cbv zeta.
    destruct (Z.of_nat (length (generateMoves board)) =? 0).
    + apply length_replicate.
    + apply search_moves_length; [intros; apply IH | apply length_replicate].
Qed.

(** With no move to play and a table value that is no mate, a positive depth
    answers a draw. *)
Lemma no_moves_is_draw (board : Board) (side : bool) (depth' : nat)
  (alpha beta : Eval) (maxDepth : nat) (v : Eval) :
  generateMoves board = [] ->
  get EVAL_TABLE_LARGE (Z.land (Z.shiftr (share board) 36) DBLCHUNK) = v ->
  v * (if side then 1 else -1) <> 1000000 ->
  v * (if side then 1 else -1) <> -1000000 ->
  alphaBeta board side (S depth') alpha beta maxDepth
  = mkEvalAndPV 0 (replicate maxDepth 81).
Proof.
  intros Hnone Hv Hwin Hloss. rewrite alphaBeta_step. cbv zeta.
  rewrite Hnone, Hv. change (Z.of_nat (length [] ) =? 0) with true. cbv iota.
  unfold OUTCOME_WIN, OUTCOME_LOSS, OUTCOME_DRAW, NULL_MOVE.
  destruct (Z.eqb_spec (v * (if side then 1 else -1)) 1000000); [contradiction |].
  destruct (Z.eqb_spec (v * (if side then 1 else -1)) (-1000000)); [contradiction |].
  reflexivity.
Qed.

(** C4: at a depth of at least 1 (and at most [maxDepth]), on a position for
    which [generateMoves] answers no move and whose side-signed entry of the
    large table is neither 1000000 nor -1000000, [alphaBeta] answers the
    score 0 and a principal variation of [maxDepth] null moves, whatever
    value the entry holds. *)
Theorem alphaBeta_no_moves (P : Board) (side : bool) (depth : nat)
  (alpha beta : Eval) (maxDepth : nat) :
  (1 <= depth)%nat -> (depth <= maxDepth)%nat ->
  generateMoves P = [] ->
  get EVAL_TABLE_LARGE (Z.land (Z.shiftr (share P) 36) DBLCHUNK)
    * (if side then 1 else -1) <> 1000000 ->
  get EVAL_TABLE_LARGE (Z.land (Z.shiftr (share P) 36) DBLCHUNK)
    * (if side then 1 else -1) <> -1000000 ->
  alphaBeta P side depth alpha beta maxDepth
  = mkEvalAndPV OUTCOME_DRAW (replicate maxDepth NULL_MOVE).
Proof.
  intros Hdepth _ Hnone Hwin Hloss.
  destruct depth as [| depth']; [lia |].
  exact (no_moves_is_draw P side depth' alpha beta maxDepth _
           Hnone eq_refl Hwin Hloss).
Qed.

(** On [stuck_board] the entry is the heuristic value 235, and the search
    still answers a draw. *)
Lemma stuck_board_entry :
  get EVAL_TABLE_LARGE (Z.land (Z.shiftr (share stuck_board) 36) DBLCHUNK) = 235.
Proof.
  change (Z.land (Z.shiftr (share stuck_board) 36) DBLCHUNK) with (table_index 1 0).
  rewrite EVAL_TABLE_LARGE_entry by lia. vm_compute. reflexivity.
Qed.

Lemma alphaBeta_no_moves_witness :
  (generateMoves stuck_board = []
   /\ get EVAL_TABLE_LARGE (Z.land (Z.shiftr (share stuck_board) 36) DBLCHUNK) = 235)
  /\ alphaBeta stuck_board true 2 (-1000000) 1000000 3
     = mkEvalAndPV OUTCOME_DRAW (replicate 3 NULL_MOVE).
Proof.
  split.
  - split; [vm_compute; reflexivity | exact stuck_board_entry].
  - apply (alphaBeta_no_moves stuck_board true 2 (-1000000) 1000000 3).
    + lia.
    + lia.
    + vm_compute. reflexivity.
    + rewrite stuck_board_entry. lia.
    + rewrite stuck_board_entry. lia.
Defined.

(** At the root window a positive depth answers inside the window. *)
Lemma alphaBeta_root_window (P : Board) (side : bool) (depth' : nat) :
  OUTCOME_LOSS
  <= evaluation (alphaBeta P side (S depth') OUTCOME_LOSS OUTCOME_WIN (S depth'))
  <= OUTCOME_WIN.
Proof.
  rewrite alphaBeta_step. cbv zeta.
  destruct (Z.of_nat (length (generateMoves P)) =? 0).
  - generalize (get EVAL_TABLE_LARGE (Z.land (Z.shiftr (share P) 36) DBLCHUNK)
                * (if side then 1 else -1)).
    intros v. unfold OUTCOME_WIN, OUTCOME_LOSS, OUTCOME_DRAW.
    destruct (Z.eqb_spec v 1000000); [cbn [evaluation]; lia |].
    destruct (Z.eqb_spec v (-1000000)); cbn [evaluation]; lia.
  - apply search_moves_window. unfold OUTCOME_WIN, OUTCOME_LOSS. lia.
Qed.

(** C9: on every position of a game, for either side and every positive
    depth, the score of [alphaBetaRootCall] lies between [OUTCOME_LOSS] and
    [OUTCOME_WIN]. *)
Theorem alphaBetaRootCall_bounds (start side : bool) (P : Board) (depth : nat) :
  reachable start P -> (0 < depth)%nat ->
  OUTCOME_LOSS <= evaluation (alphaBetaRootCall P side depth) <= OUTCOME_WIN.
Proof.
  intros _ Hdepth. destruct depth as [| depth']; [lia |].
  apply alphaBeta_root_window.
Qed.

Lemma alphaBetaRootCall_bounds_witness :
  (reachable false (playMove newBoard 40 true) /\ (0 < 2)%nat)
  /\ OUTCOME_LOSS
     <= evaluation (alphaBetaRootCall (playMove newBoard 40 true) false 2)
     <= OUTCOME_WIN.
Proof.
  assert (Hreach : reachable false (playMove newBoard 40 true)).
  { apply (reach_play true newBoard 40 (reach_new true)). vm_compute. tauto. }
  split.
  - split; [exact Hreach | lia].
  - apply (alphaBetaRootCall_bounds false false (playMove newBoard 40 true) 2 Hreach). lia.
Defined.

(** * Further properties *)

(** ** [linePresence] on any word *)

Lemma grid_line_in_chunk (line : Z) :
  In line grid_lines -> Z.land CHUNK line = line.
Proof.
  intros H. simpl in H.
  repeat (destruct H as [<- | H]; [reflexivity |]). destruct H.
Qed.

Lemma land_CHUNK_range (x : Z) : 0 <= Z.land x CHUNK < 512.
Proof.
  change CHUNK with (Z.ones 9). rewrite Z.land_ones by lia.
  apply Z.mod_pos_bound. lia.
Qed.

Lemma testbit_land_CHUNK (x k : Z) :
  0 <= k < 9 -> Z.testbit (Z.land x CHUNK) k = Z.testbit x k.
Proof.
  intros Hk. rewrite Z.land_spec, testbit_CHUNK by lia.
  destruct (Z.ltb_spec k 9); [apply andb_true_r | lia].
Qed.

(** [linePresence] of any word is the line test on its nine low bits. *)
Lemma linePresence_chunk (x : Z) :
  linePresence x = has_completed_line (Z.land x CHUNK).
Proof.
  rewrite (linePresence_low x (Z.land x CHUNK))
    by (intros k Hk; symmetry; apply testbit_land_CHUNK, Hk).
  apply Bool.eqb_prop.
  exact (forallb_keys 512 _ _ linePresence_check_all (land_CHUNK_range x)).
Qed.

(** X1: for every integer [x], of any size or sign, [linePresence x] is true
    exactly when some row, column or diagonal has its three bits set among
    the nine low bits of [x]; the callers pass shifted words without masking
    them. *)
Theorem linePresence_any_word (x : Z) :
  linePresence x = true <->
  exists line, In line grid_lines /\ Z.land x line = line.
Proof.
  rewrite linePresence_chunk. unfold has_completed_line, completed.
  rewrite existsb_exists.
  split; intros [line [Hin H]]; exists line; (split; [exact Hin |]).
  - apply Z.eqb_eq in H.
    rewrite <- Z.land_assoc, (grid_line_in_chunk line Hin) in H. exact H.
  - apply Z.eqb_eq.
    rewrite <- Z.land_assoc, (grid_line_in_chunk line Hin). exact H.
Qed.

(** ** What [generateMoves] offers *)

(** The three bit tests of [generateMoves], read as tests of single bits. *)
Lemma cell_test_low (u t m : Z) :
  (Z.land (Z.shiftr (Z.lor u t) m) 1 =? 0) = negb (Z.testbit u m || Z.testbit t m).
Proof. now rewrite bit_clear_test, Z.lor_spec. Qed.

Lemma cell_test_high (s m : Z) :
  63 <= m ->
  (Z.land (Z.shiftr (Z.lor (Z.shiftr s 18) s) (m - 63)) 1 =? 0)
  = negb (Z.testbit s (m - 63) || Z.testbit s (m - 63 + 18)).
Proof.
  intros Hm. rewrite bit_clear_test, Z.lor_spec, Z.shiftr_spec by lia.
  now rewrite orb_comm.
Qed.

Lemma meta_test (s m : Z) :
  0 <= m ->
  (Z.land (Z.shiftr (Z.lor (Z.shiftr s 36) (Z.shiftr s 45)) (Z.quot m 9)) 1 =? 0)
  = negb (Z.testbit s (36 + m / 9) || Z.testbit s (45 + m / 9)).
Proof.
  intros Hm. rewrite Z.quot_div_nonneg by lia.
  assert (0 <= m / 9) by (apply Z.div_pos; lia).
  rewrite bit_clear_test, Z.lor_spec, !Z.shiftr_spec by lia.
  now rewrite (Z.add_comm (m / 9) 36), (Z.add_comm (m / 9) 45).
Qed.

Lemma next_zone_range (P : Board) : 0 <= next_zone P < 16.
Proof.
  unfold next_zone. change 15 with (Z.ones 4). rewrite Z.land_ones by lia.
  apply Z.mod_pos_bound. lia.
Qed.

(** Membership in the list [generateMoves] builds. *)
Lemma generateMoves_In (P : Board) (m : Move) :
  next_zone P <= 9 ->
  In m (generateMoves P) <->
  meta_line P = false
  /\ 0 <= m < 81
  /\ cell_marked P m = false
  /\ (if next_zone P =? 9 then zone_decided P (m / 9) = false
      else m / 9 = next_zone P).
Proof.
  intros Hzone. pose proof (next_zone_range P) as Hrange. revert Hzone Hrange.
  destruct P as [u t s].
  unfold generateMoves, meta_line, next_zone, cell_marked, zone_decided, ZONE_ANY.
  cbn [us them share]. set (zone := Z.land (Z.shiftr s 54) 15). intros Hzone Hrange.
  destruct (linePresence (Z.shiftr s 36) || linePresence (Z.shiftr s 45)).
  { split; [intros [] | intros [H _]; discriminate H]. }
  destruct (Z.eqb_spec zone 9) as [H9 | H9].
  - rewrite in_app_iff, !filter_In, in_map_iff. split.
    + intros [[Hk Hf] | [[i [<- Hi]] Hf]].
      * apply keys_In in Hk. rewrite cell_test_low, meta_test in Hf by lia.
        destruct (Z.ltb_spec m 63); [| lia].
        apply andb_prop in Hf. destruct Hf as [Hc Hd].
        apply negb_true_iff in Hc, Hd. repeat split; (lia || assumption).
      * apply keys_In in Hi. rewrite cell_test_high, meta_test in Hf by lia.
        destruct (Z.ltb_spec (i + 63) 63); [lia |].
        apply andb_prop in Hf. destruct Hf as [Hc Hd].
        apply negb_true_iff in Hc, Hd. repeat split; (lia || assumption).
    + intros [_ [Hm [Hc Hd]]]. destruct (Z.ltb_spec m 63).
      * left. split; [apply (In_keys 63); lia |].
        rewrite cell_test_low, meta_test, Hc, Hd by lia. reflexivity.
      * right. split.
        -- exists (m - 63). split; [lia | apply (In_keys 18); lia].
        -- rewrite cell_test_high, meta_test, Hc, Hd by lia. reflexivity.
  - assert (Hdiv : forall i, 0 <= i < 9 -> (i + 9 * zone) / 9 = zone).
    { intros i Hi. rewrite Z.mul_comm, Z.div_add by lia. rewrite Z.div_small; lia. }
    destruct ((zone =? 7) || (zone =? 8)) eqn:H78;
      rewrite filter_In, in_map_iff; split.
    + intros [[i [<- Hi]] Hf]. apply keys_In in Hi.
      rewrite cell_test_high in Hf by lia. apply negb_true_iff in Hf.
      destruct (Z.ltb_spec (i + 9 * zone) 63); [lia |].
      rewrite Hdiv by lia. repeat split; (lia || assumption).
    + intros [_ [Hm [Hc Hd]]].
      pose proof (Z.div_mod m 9 ltac:(lia)) as Hdm.
      pose proof (Z.mod_pos_bound m 9 ltac:(lia)) as Hmod.
      destruct (Z.ltb_spec m 63); [lia |]. split.
      * exists (m mod 9). split; [lia | apply (In_keys 9); lia].
      * rewrite cell_test_high, Hc by lia. reflexivity.
    + intros [[i [<- Hi]] Hf]. apply keys_In in Hi.
      rewrite cell_test_low in Hf. apply negb_true_iff in Hf.
      destruct (Z.ltb_spec (i + 9 * zone) 63); [| lia].
      rewrite Hdiv by lia. repeat split; (lia || assumption).
    + intros [_ [Hm [Hc Hd]]].
      pose proof (Z.div_mod m 9 ltac:(lia)) as Hdm.
      pose proof (Z.mod_pos_bound m 9 ltac:(lia)) as Hmod.
      destruct (Z.ltb_spec m 63); [| lia]. split.
      * exists (m mod 9). split; [lia | apply (In_keys 9); lia].
      * rewrite cell_test_low, Hc. reflexivity.
Qed.

(** X2: on a position whose zone field is at most 9, [generateMoves] offers
    exactly the moves [m] in [0, 81) such that the meta-board has no
    completed line, the cell of [m] carries no mark, and either the zone field
    is 9 and zone [m / 9] is not decided, or zone [m / 9] is the zone the
    field names. *)
Theorem generateMoves_exactly (P : Board) (m : Move) :
  next_zone P <= 9 ->
  In m (generateMoves P) <->
  meta_line P = false
  /\ 0 <= m < 81
  /\ cell_marked P m = false
  /\ (if next_zone P =? 9 then zone_decided P (m / 9) = false
      else m / 9 = next_zone P).
Proof. exact (generateMoves_In P m). Qed.

Lemma generateMoves_exactly_witness :
  next_zone (playMove newBoard 40 true) <= 9
  /\ (In 44 (generateMoves (playMove newBoard 40 true)) <->
      meta_line (playMove newBoard 40 true) = false
      /\ 0 <= 44 < 81
      /\ cell_marked (playMove newBoard 40 true) 44 = false
      /\ (if next_zone (playMove newBoard 40 true) =? 9
          then zone_decided (playMove newBoard 40 true) (44 / 9) = false
          else 44 / 9 = next_zone (playMove newBoard 40 true))).
Proof.
  assert (H : next_zone (playMove newBoard 40 true) <= 9) by (vm_compute; discriminate).
  split; [exact H |]. exact (generateMoves_exactly (playMove newBoard 40 true) 44 H).
Defined.

(** Ascending lists. *)
Lemma keys_from_sorted (a n : nat) :
  StronglySorted Z.lt (map Z.of_nat (seq a n)).
Proof.
  revert a. induction n as [| n IH]; intros a; cbn [seq map]; constructor.
  - apply IH.
  - apply List.Forall_forall. intros x Hx. apply in_map_iff in Hx.
    destruct Hx as [i [<- Hi]]. apply in_seq in Hi. lia.
Qed.

Lemma sorted_map_add (c : Z) (l : list Z) :
  StronglySorted Z.lt l -> StronglySorted Z.lt (map (fun i => i + c) l).
Proof.
  induction 1 as [| a l Hs IH Hall]; cbn [map]; constructor; [exact IH |].
  rewrite List.Forall_forall in *. intros x Hx. apply in_map_iff in Hx.
  destruct Hx as [i [<- Hi]]. specialize (Hall i Hi). lia.
Qed.

Lemma sorted_filter (f : Z -> bool) (l : list Z) :
  StronglySorted Z.lt l -> StronglySorted Z.lt (List.filter f l).
Proof.
  induction 1 as [| a l Hs IH Hall]; cbn [List.filter]; [constructor |].
  destruct (f a); [| exact IH]. constructor; [exact IH |].
  rewrite List.Forall_forall in *. intros x Hx. apply filter_In in Hx. apply Hall, Hx.
Qed.

Lemma sorted_app (l1 l2 : list Z) :
  StronglySorted Z.lt l1 -> StronglySorted Z.lt l2 ->
  (forall x y, In x l1 -> In y l2 -> x < y) ->
  StronglySorted Z.lt (l1 ++ l2).
Proof.
  intros H1 H2 Hlt. induction H1 as [| a l Hs IH Hall]; cbn [app]; [exact H2 |].
  constructor.
  - apply IH. intros x y Hx Hy. apply Hlt; [now right | exact Hy].
  - rewrite List.Forall_forall in *. intros x Hx. apply in_app_or in Hx.
    destruct Hx as [Hx | Hx]; [apply Hall, Hx | apply Hlt; [now left | exact Hx]].
Qed.

(** X3: on every position, the list of [generateMoves] is strictly
    ascending: zone by zone, cell by cell, with no move twice. *)
Theorem generateMoves_ascending (P : Board) :
  StronglySorted Z.lt (generateMoves P).
Proof.
  destruct P as [u t s]. unfold generateMoves.
  destruct (linePresence (Z.shiftr s 36) || linePresence (Z.shiftr s 45));
    [constructor |].
  destruct (_ =? ZONE_ANY).
  - apply sorted_app.
    + apply sorted_filter, keys_from_sorted.
    + apply sorted_filter, sorted_map_add, keys_from_sorted.
    + intros x y Hx Hy. apply filter_In in Hx, Hy.
      destruct Hx as [Hx _], Hy as [Hy _]. apply keys_In in Hx.
      apply in_map_iff in Hy. destruct Hy as [i [<- Hi]]. apply keys_In in Hi. lia.
  - destruct (_ || _); apply sorted_filter, sorted_map_add, keys_from_sorted.
Qed.

(** ** Cells, zones and meta bits along a game *)

Lemma cell_marked_cells (P : Board) (m : Z) :
  cell_marked P m = cell_of true P m || cell_of false P m.
Proof.
  unfold cell_marked, cell_of. destruct (m <? 63); [reflexivity |].
  now rewrite Z.add_0_r.
Qed.

Lemma zone_decided_bits (P : Board) (z : Z) :
  zone_decided P z = won_bit true P z || won_bit false P z.
Proof.
  unfold zone_decided, won_bit. now rewrite Z.add_0_r.
Qed.

Lemma zone_pattern_bit (side : bool) (P : Board) (z k : Z) :
  0 <= z < 9 -> 0 <= k < 9 ->
  Z.testbit (zone_pattern side P z) k = cell_of side P (9 * z + k).
Proof.
  intros Hz Hk. unfold zone_pattern, cell_of.
  destruct (Z.ltb_spec z 7), (Z.ltb_spec (9 * z + k) 63); try lia;
    rewrite (testbit_land_CHUNK _ k Hk), Z.shiftr_spec by lia; f_equal; lia.
Qed.

(** The marks of a move with the test of the completed line written out. *)
Lemma stage_mark_explicit (P : Board) (m : Move) (side : bool) :
  0 <= m < 81 ->
  let u1 := if (m <=? 62) && side then Z.lor (us P) (Z.shiftl 1 m) else us P in
  let t1 := if (m <=? 62) && negb side then Z.lor (them P) (Z.shiftl 1 m) else them P in
  let s0 := if 63 <=? m
            then Z.lor (share P) (Z.shiftl 1 (m - 63 + (if side then 0 else 18)))
            else share P in
  let won := if 63 <=? m
             then linePresence (Z.shiftr s0 (9 * (m / 9) - 63 + (if side then 0 else 18)))
             else linePresence (Z.shiftr (if side then u1 else t1) (9 * (m / 9))) in
  stage_mark P m side =
  (u1, t1,
   if won then Z.lor s0 (Z.shiftl 1 (36 + (if side then 0 else 9) + m / 9)) else s0).
Proof.
  intros Hm. destruct P as [u t s]. unfold stage_mark. cbn [us them share].
  rewrite Z.quot_div_nonneg by lia.
  destruct (Z.gtb_spec m 62), (Z.leb_spec m 62), (Z.leb_spec 63 m); try lia;
    destruct side; reflexivity.
Qed.

(** Every cell and every meta bit after a move. *)
Lemma playMove_cells_and_bits (P : Board) (m : Move) (side : bool) :
  0 <= m < 81 ->
  (forall p m', 0 <= m' < 81 ->
     cell_of p (playMove P m side) m'
     = cell_of p P m' || (Bool.eqb p side && (m' =? m)))
  /\ (forall p z, 0 <= z < 9 ->
        won_bit p (playMove P m side) z
        = won_bit p P z
          || (Bool.eqb p side && (z =? m / 9)
              && linePresence (zone_pattern side (playMove P m side) (m / 9)))).
Proof.
  intros Hm.
  assert (Hq : 0 <= m / 9 < 9)
    by (split; [apply Z.div_pos | apply Z.div_lt_upper_bound]; lia).
  assert (Hq7 : 63 <= m -> 7 <= m / 9) by (intros; apply Z.div_le_lower_bound; lia).
  assert (Hq6 : m <= 62 -> m / 9 <= 6)
    by (intros; apply Z.lt_succ_r, Z.div_lt_upper_bound; lia).
  rewrite playMove_stages.
  pose proof (stage_mark_explicit P m side Hm) as E. cbv zeta in E. rewrite E. clear E.
  set (u1 := if (m <=? 62) && side then Z.lor (us P) (Z.shiftl 1 m) else us P).
  set (t1 := if (m <=? 62) && negb side then Z.lor (them P) (Z.shiftl 1 m) else them P).
  set (s0 := if 63 <=? m
             then Z.lor (share P) (Z.shiftl 1 (m - 63 + (if side then 0 else 18)))
             else share P).
  set (won := if 63 <=? m
              then linePresence (Z.shiftr s0 (9 * (m / 9) - 63 + (if side then 0 else 18)))
              else linePresence (Z.shiftr (if side then u1 else t1) (9 * (m / 9)))).
  set (s1 := if won then Z.lor s0 (Z.shiftl 1 (36 + (if side then 0 else 9) + m / 9))
             else s0).
  set (zn := stage_zone u1 t1 s1 m).
  assert (Hzn : 0 <= zn < 16) by (apply stage_zone_range; exact Hm).
  set (Q := mkBoard u1 t1 (Z.lor (Z.land s1 EXCLZONE) (Z.shiftl zn 54))).
  assert (Hu1 : forall i, Z.testbit u1 i
                          = Z.testbit (us P) i || ((m <=? 62) && side && (i =? m)))
    by (intros i; apply testbit_mark; lia).
  assert (Ht1 : forall i, Z.testbit t1 i
                          = Z.testbit (them P) i || ((m <=? 62) && negb side && (i =? m)))
    by (intros i; apply testbit_mark; lia).
  assert (Hs0 : forall i, Z.testbit s0 i
                          = Z.testbit (share P) i
                            || ((63 <=? m) && (i =? m - 63 + (if side then 0 else 18)))).
  { intros i. subst s0. destruct (Z.leb_spec 63 m).
    - rewrite (testbit_mark true) by (destruct side; lia). reflexivity.
    - cbn [andb]. now rewrite orb_false_r. }
  assert (Hs1 : forall i, Z.testbit s1 i
                          = Z.testbit s0 i
                            || (won && (i =? 36 + (if side then 0 else 9) + m / 9)))
    by (intros i; apply testbit_mark; destruct side; lia).
  assert (HQ : forall i, 0 <= i < 54 -> Z.testbit (share Q) i = Z.testbit s1 i)
    by (intros i Hi; apply write_zone_low, Hi).
  assert (Hcells : forall p m', 0 <= m' < 81 ->
            cell_of p Q m' = cell_of p P m' || (Bool.eqb p side && (m' =? m))).
  { intros p m' Hm'. unfold cell_of. cbn [us them].
    destruct (Z.ltb_spec m' 63).
    - destruct p; rewrite ?Hu1, ?Ht1; f_equal;
        destruct side, (Z.leb_spec m 62), (Z.eqb_spec m' m); try reflexivity; lia.
    - rewrite HQ, Hs1, Hs0 by (destruct p; lia).
      destruct p, side, (Z.leb_spec 63 m), won;
        repeat match goal with |- context [?a =? ?b] => destruct (Z.eqb_spec a b) end;
        cbn [andb orb Bool.eqb]; rewrite ?orb_false_r, ?orb_true_r;
        try reflexivity; lia. }
  split; [exact Hcells |].
  assert (Hwon : won = linePresence (zone_pattern side Q (m / 9))).
  { subst won. destruct (Z.leb_spec 63 m) as [Hbig | Hsmall].
    - apply linePresence_low. intros k Hk.
      rewrite zone_pattern_bit by lia. unfold cell_of.
      destruct (Z.ltb_spec (9 * (m / 9) + k) 63); [lia |].
      rewrite HQ, Hs1 by (destruct side; lia).
      rewrite Z.shiftr_spec by lia.
      replace (k + (9 * (m / 9) - 63 + (if side then 0 else 18)))
        with (9 * (m / 9) + k - 63 + (if side then 0 else 18)) by lia.
      destruct (Z.eqb_spec (9 * (m / 9) + k - 63 + (if side then 0 else 18))
                  (36 + (if side then 0 else 9) + m / 9));
        [destruct side; lia |].
      now rewrite andb_false_r, orb_false_r.
    - apply linePresence_low. intros k Hk.
      rewrite zone_pattern_bit by lia. unfold cell_of.
      destruct (Z.ltb_spec (9 * (m / 9) + k) 63); [| lia].
      rewrite Z.shiftr_spec by lia. cbn [us them].
      destruct side; f_equal; lia. }
  intros p z Hz. unfold won_bit.
  rewrite HQ, Hs1, Hs0 by (destruct p; lia). rewrite <- Hwon.
  destruct p, side, (Z.leb_spec 63 m), won;
    repeat match goal with |- context [?a =? ?b] => destruct (Z.eqb_spec a b) end;
    cbn [andb orb Bool.eqb]; rewrite ?orb_false_r, ?orb_true_r, ?andb_false_r;
    try reflexivity; lia.
Qed.
Lemma newBoard_well_formed : well_formed newBoard.
Proof.
  assert (Hcell : forall p m, 0 <= m < 81 -> cell_of p newBoard m = false).
  { intros p m Hm. unfold cell_of, newBoard. cbn [us them share].
    destruct (m <? 63).
    - destruct p; apply Z.bits_0.
    - apply Z.shiftl_spec_low. destruct p; lia. }
  assert (Hbit : forall p z, 0 <= z < 9 -> won_bit p newBoard z = false).
  { intros p z Hz. unfold won_bit, newBoard. cbn [share].
    apply Z.shiftl_spec_low. destruct p; lia. }
  split.
  - left. reflexivity.
  - intros m Hm. now rewrite !Hcell.
  - intros p z Hz. rewrite Hbit by exact Hz.
    rewrite (linePresence_low _ 0); [reflexivity |].
    intros k Hk. rewrite zone_pattern_bit, Hcell by lia. now rewrite Z.bits_0.
  - intros z Hz. now rewrite !Hbit.
Qed.

Lemma div9_cell (z k : Z) : 0 <= k < 9 -> (9 * z + k) / 9 = z.
Proof.
  intros Hk. rewrite Z.add_comm, Z.mul_comm, Z.div_add by lia.
  rewrite Z.div_small; lia.
Qed.

(** A move that [generateMoves] offers keeps the form. *)
Lemma well_formed_step (P : Board) (m : Move) (side : bool) :
  well_formed P -> In m (generateMoves P) -> well_formed (playMove P m side).
Proof.
  intros [Hzone Hdisj Hwon Hexcl] Hin.
  destruct (generateMoves_sound P m Hzone Hin) as [Hm [Hfree Hundecided]].
  rewrite cell_marked_cells in Hfree. apply orb_false_elim in Hfree.
  rewrite zone_decided_bits in Hundecided. apply orb_false_elim in Hundecided.
  destruct Hfree as [Hfree_us Hfree_them], Hundecided as [Hund_us Hund_them].
  destruct (playMove_cells_and_bits P m side Hm) as [Hcells Hbits].
  assert (Hq : 0 <= m / 9 < 9)
    by (split; [apply Z.div_pos | apply Z.div_lt_upper_bound]; lia).
  split.
  - destruct (playMove_zone_field P m side Hm) as [Hz Hany].
    pose proof (Z.mod_pos_bound m 9 ltac:(lia)) as Hc.
    destruct Hz as [H9 | Hc']; [now left |].
    right. rewrite Hc'. split; [exact Hc |].
    destruct (zone_decided (playMove P m side) (m mod 9)) eqn:Hdec; [| reflexivity].
    assert (next_zone (playMove P m side) = 9) by (apply Hany; now left). lia.
  - intros m' Hm'. rewrite !Hcells by exact Hm'.
    destruct (Z.eqb_spec m' m) as [-> | Hne].
    + rewrite Hfree_us, Hfree_them. now destruct side.
    + rewrite !andb_false_r, !orb_false_r. apply Hdisj, Hm'.
  - intros p z Hz. rewrite Hbits by exact Hz.
    destruct (Bool.eqb p side && (z =? m / 9)) eqn:Hhere.
    + apply andb_prop in Hhere. destruct Hhere as [Hp Hzq].
      apply Bool.eqb_prop in Hp. apply Z.eqb_eq in Hzq. subst p z.
      cbn [andb]. destruct side; rewrite ?Hund_us, ?Hund_them; reflexivity.
    + cbn [andb]. rewrite orb_false_r, Hwon by exact Hz.
      apply linePresence_low. intros k Hk.
      rewrite !zone_pattern_bit, Hcells by lia.
      destruct (Bool.eqb p side); [| now rewrite orb_false_r].
      cbn [andb] in *. apply Z.eqb_neq in Hhere.
      destruct (Z.eqb_spec (9 * z + k) m) as [E | E].
      * rewrite <- E, div9_cell in Hhere by lia. contradiction.
      * now rewrite orb_false_r.
  - intros z Hz. rewrite !Hbits by exact Hz.
    destruct (Z.eqb_spec z (m / 9)) as [-> | Hne].
    + rewrite Hund_us, Hund_them. destruct side; cbn; now rewrite ?andb_false_r.
    + rewrite !andb_false_r, !orb_false_r. apply Hexcl, Hz.
Qed.

Lemma reachable_well_formed (side : bool) (P : Board) :
  reachable side P -> well_formed P.
Proof.
  induction 1 as [side | side P m Hreach IH Hin].
  - exact newBoard_well_formed.
  - apply well_formed_step; assumption.
Qed.

(** X4: a move in [0, 81) marks its own cell for the player [side] selects
    and changes the mark of no other cell of either player. *)
Theorem playMove_marks_one_cell (P : Board) (m m' : Move) (side p : bool) :
  0 <= m < 81 -> 0 <= m' < 81 ->
  cell_of p (playMove P m side) m'
  = cell_of p P m' || (Bool.eqb p side && (m' =? m)).
Proof.
  intros Hm Hm'. exact (proj1 (playMove_cells_and_bits P m side Hm) p m' Hm').
Qed.

Lemma playMove_marks_one_cell_witness :
  (0 <= 70 < 81 /\ 0 <= 70 < 81)
  /\ cell_of false (playMove newBoard 70 false) 70
     = cell_of false newBoard 70 || (Bool.eqb false false && (70 =? 70)).
Proof.
  split; [lia |]. apply (playMove_marks_one_cell newBoard 70 70 false false); lia.
Defined.







(** The zone a position of a game forces is neither decided nor full. *)
Lemma reachable_forced_zone (side : bool) (P : Board) :
  reachable side P -> next_zone P <> 9 ->
  0 <= next_zone P < 9
  /\ zone_decided P (next_zone P) = false
  /\ zone_full P (next_zone P) = false.
Proof.
  intros Hreach Hne. destruct Hreach as [side | side P m Hreach Hin].
  - exfalso. apply Hne. reflexivity.
  - destruct (generateMoves_sound P m (reachable_zone_field_ok side P Hreach) Hin)
      as [Hm _].
    destruct (playMove_zone_field P m side Hm) as [Hz Hany].
    pose proof (Z.mod_pos_bound m 9 ltac:(lia)) as Hc.
    destruct Hz as [H9 | Hc']; [contradiction |].
    rewrite Hc'. split; [exact Hc |].
    destruct (zone_decided (playMove P m side) (m mod 9)) eqn:Hdec.
    { exfalso. apply Hne, Hany. now left. }
    destruct (zone_full (playMove P m side) (m mod 9)) eqn:Hfull.
    { exfalso. apply Hne, Hany. now right. }
    split; reflexivity.
Qed.

(** X8: a position of a game that forces a zone (zone field below 9) names a
    zone that is neither decided nor full, and unless the meta-board holds a
    completed line [generateMoves] offers at least one move there. *)
Theorem reachable_forced_zone_playable (side : bool) (P : Board) :
  reachable side P -> next_zone P <> 9 ->
  0 <= next_zone P < 9
  /\ zone_decided P (next_zone P) = false
  /\ zone_full P (next_zone P) = false
  /\ (meta_line P = false -> generateMoves P <> []).
Proof.
  intros Hreach Hne.
  destruct (reachable_forced_zone side P Hreach Hne) as [Hz [Hdec Hfull]].
  repeat split; try lia; try assumption.
  intros Hmeta Hnone.
  unfold zone_full in Hfull.
  assert (Hex : exists c, In c (keys 9) /\ cell_marked P (9 * next_zone P + c) = false).
  { clear -Hfull. induction (keys 9) as [| c l IH]; [discriminate Hfull |].
    cbn [forallb] in Hfull. apply andb_false_iff in Hfull.
    destruct Hfull as [Hc | Hl].
    - exists c. split; [now left | exact Hc].
    - destruct (IH Hl) as [c' [Hin Hc']]. exists c'. split; [now right | exact Hc']. }
  destruct Hex as [c [Hc Hfree]]. apply keys_In in Hc.
  assert (Hin : In (9 * next_zone P + c) (generateMoves P)).
  { apply generateMoves_In; [lia |].
    split; [exact Hmeta |]. split; [lia |]. split; [exact Hfree |].
    destruct (Z.eqb_spec (next_zone P) 9); [contradiction |].
    apply div9_cell. lia. }
  rewrite Hnone in Hin. destruct Hin.
Qed.

Lemma reachable_forced_zone_playable_witness :
  (reachable false (playMove newBoard 40 true)
   /\ next_zone (playMove newBoard 40 true) <> 9)
  /\ zone_full (playMove newBoard 40 true) (next_zone (playMove newBoard 40 true)) = false.
Proof.
  assert (Hreach : reachable false (playMove newBoard 40 true)).
  { apply (reach_play true newBoard 40 (reach_new true)). vm_compute. tauto. }
  assert (Hne : next_zone (playMove newBoard 40 true) <> 9) by (vm_compute; discriminate).
  split; [split; assumption |].
  apply (reachable_forced_zone_playable false (playMove newBoard 40 true) Hreach Hne).
Defined.

(** ** The principal variation *)

Lemma legal_line_nulls (b : Board) (side : bool) (n : nat) :
  legal_line b side (replicate n NULL_MOVE).
Proof.
  destruct n as [| n]; [exact I |].
  cbn [replicate legal_line]. left. cbn [length]. now rewrite length_replicate.
Qed.

Section LoopShape.
Variable board : Board.
Variable side : bool.
Variable depth' maxDepth : nat.
Variable child : Move -> Eval -> Eval -> EvalAndPV.
Hypothesis depth_le : (S depth' <= maxDepth)%nat.
Hypothesis child_shape : forall move a b,
  In move (generateMoves board) ->
  pv_shape (playMove board move side) (negb side) depth' maxDepth (pv (child move a b)).

(** Writing the move into the line of its child gives a line of this depth. *)
Lemma set_at_shape (move : Move) (line : list Move) :
  In move (generateMoves board) ->
  pv_shape (playMove board move side) (negb side) depth' maxDepth line ->
  pv_shape board side (S depth') maxDepth
    (set_at line (Z.of_nat maxDepth - Z.of_nat (S depth')) move).
Proof.
  intros Hin [Hlen [Hnull Hlegal]]. unfold set_at.
  destruct (Z.ltb_spec (Z.of_nat maxDepth - Z.of_nat (S depth')) 0); [lia |].
  replace (Z.to_nat (Z.of_nat maxDepth - Z.of_nat (S depth')))
    with (maxDepth - S depth')%nat by lia.
  set (n := (maxDepth - S depth')%nat) in *.
  assert (Hn : (maxDepth - depth' = S n)%nat) by lia.
  rewrite Hn in Hnull, Hlegal.
  unfold pv_shape. fold n.
  split; [now rewrite length_insert |]. split.
  - rewrite take_insert_ge by lia.
    replace (take n line) with (take n (take (S n) line))
      by (rewrite take_take; f_equal; lia).
    rewrite Hnull, take_replicate. f_equal. lia.
  - rewrite insert_take_drop by lia.
    rewrite drop_app_length' by (rewrite length_take; lia).
    cbn [legal_line]. right. split; assumption.
Qed.

Lemma search_moves_shape (moveList : list Move) (alpha beta : Eval) (line : list Move) :
  (forall move, In move moveList -> In move (generateMoves board)) ->
  pv_shape board side (S depth') maxDepth line ->
  pv_shape board side (S depth') maxDepth
    (pv (search_moves child (Z.of_nat maxDepth - Z.of_nat (S depth'))
           moveList alpha beta line)).
Proof.
  revert alpha line.
  induction moveList as [| move rest IH]; intros alpha line Hall Hline;
    cbn [search_moves].
  - exact Hline.
  - assert (Hmove : In move (generateMoves board)) by (apply Hall; now left).
    assert (Hrest : forall x, In x rest -> In x (generateMoves board))
      by (intros x Hx; apply Hall; now right).
    pose proof (child_shape move (- beta) (- alpha) Hmove) as Hc.
    destruct (child move (- beta) (- alpha)) as [e l]. cbn [pv] in Hc.
    pose proof (set_at_shape move l Hmove Hc) as Hset.
    destruct (- e >=? beta); [exact Hset |].
    destruct (- e >? alpha); apply IH; assumption.
Qed.
End LoopShape.

Lemma alphaBeta_pv_shape (depth : nat) :
  forall board side alpha beta maxDepth,
    (depth <= maxDepth)%nat ->
    pv_shape board side depth maxDepth (pv (alphaBeta board side depth alpha beta maxDepth)).
Proof.
  assert (Hnulls : forall board side d maxDepth,
            pv_shape board side d maxDepth (replicate maxDepth NULL_MOVE)).
  { intros board side d maxDepth. split; [apply length_replicate |]. split.
    - rewrite take_replicate. f_equal. lia.
    - rewrite drop_replicate. apply legal_line_nulls. }
  induction depth as [| depth' IH]; intros board side alpha beta maxDepth Hle.
  - apply Hnulls.
  - rewrite alphaBeta_step. cbv zeta.
    destruct (Z.of_nat (length (generateMoves board)) =? 0); [apply Hnulls |].
    apply search_moves_shape.
    + exact Hle.
    + intros move a b _. apply IH. lia.
    + auto.
    + apply Hnulls.
Qed.

(** X9: the principal variation of [alphaBeta] has exactly [maxDepth]
    entries, and that of [alphaBetaRootCall] exactly [depth]. *)
Theorem pv_has_full_length (P : Board) (side : bool) (depth : nat)
  (alpha beta : Eval) (maxDepth : nat) :
  length (pv (alphaBeta P side depth alpha beta maxDepth)) = maxDepth
  /\ length (pv (alphaBetaRootCall P side depth)) = depth.
Proof.
  split; [apply alphaBeta_pv_length |]. unfold alphaBetaRootCall.
  apply alphaBeta_pv_length.
Qed.

(** X10: the principal variation of [alphaBetaRootCall] is a line of play
    from the root: each entry is a move [generateMoves] offers on the
    position reached by the entries before it, the sides taking turns, up to
    a point from which all entries are the null move 81. *)
Theorem root_pv_is_legal_line (P : Board) (side : bool) (depth : nat) :
  legal_line P side (pv (alphaBetaRootCall P side depth)).
Proof.
  destruct (alphaBeta_pv_shape depth P side OUTCOME_LOSS OUTCOME_WIN depth (le_n depth))
    as [_ [_ H]].
  rewrite Nat.sub_diag in H. exact H.
Qed.

(** X11: at a depth of at least 1, on a position with a move to play, the
    search is fail-hard: for a window [alpha <= beta] the score lies in
    [[alpha, beta]]. *)
Theorem alphaBeta_fail_hard (P : Board) (side : bool) (depth : nat)
  (alpha beta : Eval) (maxDepth : nat) :
  (1 <= depth)%nat -> generateMoves P <> [] -> alpha <= beta ->
  alpha <= evaluation (alphaBeta P side depth alpha beta maxDepth) <= beta.
Proof.
  intros Hdepth Hmoves Hwin. destruct depth as [| depth']; [lia |].
  rewrite alphaBeta_step. cbv zeta.
  destruct (generateMoves P) as [| m l] eqn:E; [contradiction |].
  change (Z.of_nat (length (m :: l)) =? 0) with (Z.pos (Pos.of_succ_nat (length l)) =? 0).
  cbn [Z.eqb]. apply search_moves_window. exact Hwin.
Qed.

Lemma alphaBeta_fail_hard_witness :
  ((1 <= 1)%nat /\ generateMoves newBoard <> [] /\ -5 <= 7)
  /\ -5 <= evaluation (alphaBeta newBoard true 1 (-5) 7 1) <= 7.
Proof.
  assert (H : generateMoves newBoard <> []) by (vm_compute; discriminate).
  split; [split; [lia | split; [exact H | lia]] |].
  apply (alphaBeta_fail_hard newBoard true 1 (-5) 7 1); [lia | exact H | lia].
Defined.

(** ** The tables under an exchange of the players *)

Lemma scan_lines_flip (offs : list Z) (a b : Z) (st : LineScan) :
  scan_lines offs b a (flip_scan st) = flip_scan (scan_lines offs a b st).
Proof.
  revert st. induction offs as [| i rest IH]; intros st; [reflexivity |].
  cbn [scan_lines]. cbv zeta.
  generalize (get popCount (Z.land (Z.shiftr a i) LINE)).
  generalize (get popCount (Z.land (Z.shiftr b i) LINE)).
  intros cb ca.
  unfold BIG_TWO_COUNT, BIG_ONE_COUNT, SMALL_TWO_COUNT, SMALL_ONE_COUNT.
  destruct (Z.eqb_spec ca 0), (Z.eqb_spec cb 0); cbn [negb andb];
    try apply IH;
    destruct (Z.eqb_spec ca 3), (Z.eqb_spec cb 3); try lia; try reflexivity;
    rewrite <- IH; f_equal; unfold flip_scan; cbn [evaluationLarge evaluationSmall usWon themWon];
    f_equal;
    destruct (Z.eqb_spec ca 2), (Z.eqb_spec cb 2), (Z.eqb_spec ca 1), (Z.eqb_spec cb 1);
    lia.
Qed.

Lemma scan_flip (us them : Z) : scan them us = flip_scan (scan us them).
Proof.
  unfold scan.
  exact (scan_lines_flip slot_offsets (lines us) (lines them) (mkLineScan 0 0 false false)).
Qed.

(** The scan stops at the first line it finds won: it never answers both. *)
Lemma scan_lines_one_winner (offs : list Z) (a b : Z) (st : LineScan) :
  usWon st = false -> themWon st = false ->
  usWon (scan_lines offs a b st) && themWon (scan_lines offs a b st) = false.
Proof.
  revert st. induction offs as [| i rest IH]; intros st Hu Ht; cbn [scan_lines].
  - now rewrite Hu.
  - cbv zeta.
    destruct (negb _ && negb _); [now apply IH |].
    destruct (_ =? 3); [cbn [usWon themWon]; now rewrite Ht |].
    destruct (_ =? 3); [cbn [usWon themWon]; now rewrite Hu |].
    apply IH; assumption.
Qed.

Lemma scan_one_winner (us them : Z) :
  usWon (scan us them) && themWon (scan us them) = false.
Proof.
  unfold scan.
  exact (scan_lines_one_winner slot_offsets (lines us) (lines them)
           (mkLineScan 0 0 false false) eq_refl eq_refl).
Qed.

Lemma evaluationPos_flip (us them : Z) : evaluationPos them us = - evaluationPos us them.
Proof. unfold evaluationPos, CORNER, EDGE, CENTRE. lia. Qed.

Lemma entries_flip (us them : Z) :
  large_entry them us = - large_entry us them
  /\ small_entry them us = - small_entry us them.
Proof.
  unfold large_entry, small_entry, small_write.
  rewrite scan_flip, evaluationPos_flip, (Z.lor_comm them us).
  unfold flip_scan. cbn [usWon themWon evaluationLarge evaluationSmall].
  pose proof (scan_one_winner us them) as Hone. revert Hone.
  generalize (evaluationPos us them). generalize (get popCount (Z.lor us them)).
  destruct (scan us them) as [el es uw tw]. cbn [usWon themWon evaluationLarge evaluationSmall].
  intros c pos Hone. unfold OUTCOME_WIN, OUTCOME_LOSS, OUTCOME_DRAW, SQ_BIG.
  destruct uw, tw, (c =? 9); cbv [default from_option id andb] in *;
    try discriminate Hone; split; lia.
Qed.
(** X12: exchanging the two players negates both table entries: for
    nine-bit grids, the entries at [(us << 9) | them] are the negations of
    the entries at [(them << 9) | us]. *)
Theorem tables_exchange_players (us them : Z) :
  0 <= us < 512 -> 0 <= them < 512 ->
  get EVAL_TABLE_LARGE (Z.lor (Z.shiftl us 9) them)
  = - get EVAL_TABLE_LARGE (Z.lor (Z.shiftl them 9) us)
  /\ get EVAL_TABLE_SMALL (Z.lor (Z.shiftl us 9) them)
     = - get EVAL_TABLE_SMALL (Z.lor (Z.shiftl them 9) us).
Proof.
  intros Hus Hthem.
  pose proof (EVAL_TABLE_LARGE_entry us them Hus Hthem) as L1.
  pose proof (EVAL_TABLE_LARGE_entry them us Hthem Hus) as L2.
  pose proof (EVAL_TABLE_SMALL_entry us them Hus Hthem) as S1.
  pose proof (EVAL_TABLE_SMALL_entry them us Hthem Hus) as S2.
  unfold table_index in L1, L2, S1, S2. rewrite L1, L2, S1, S2.
  exact (entries_flip us them).
Qed.

Lemma tables_exchange_players_witness :
  (0 <= 7 < 512 /\ 0 <= 0 < 512)
  /\ get EVAL_TABLE_LARGE (Z.lor (Z.shiftl 7 9) 0)
     = - get EVAL_TABLE_LARGE (Z.lor (Z.shiftl 0 9) 7).
Proof.
  split; [lia |].
  exact (proj1 (tables_exchange_players 7 0 ltac:(lia) ltac:(lia))).
Defined.

(** ** The range of the scores *)

Lemma popCount_all_small :
  forallb (fun v => (0 <=? v) && (v <=? 9)) popCount = true.
Proof. vm_compute. reflexivity. Qed.

Lemma popCount_range (k : Z) : 0 <= get popCount k <= 9.
Proof.
  unfold get. destruct (popCount !! Z.to_nat k) as [v |] eqn:E; cbv [default from_option id]; [| lia].
  apply list_elem_of_lookup_2, list_elem_of_In in E.
  pose proof popCount_all_small as H. rewrite forallb_forall in H.
  specialize (H v E). lia.
Qed.

Lemma scan_lines_range (offs : list Z) (a b : Z) (st : LineScan) :
  evaluationLarge st - 90 * Z.of_nat (length offs)
    <= evaluationLarge (scan_lines offs a b st)
    <= evaluationLarge st + 90 * Z.of_nat (length offs)
  /\ evaluationSmall st - 8 * Z.of_nat (length offs)
       <= evaluationSmall (scan_lines offs a b st)
       <= evaluationSmall st + 8 * Z.of_nat (length offs).
Proof.
  revert st. induction offs as [| i rest IH]; intros st; cbn [scan_lines length].
  - lia.
  - cbv zeta.
    generalize (get popCount (Z.land (Z.shiftr a i) LINE)).
    generalize (get popCount (Z.land (Z.shiftr b i) LINE)).
    intros cb ca.
    unfold BIG_TWO_COUNT, BIG_ONE_COUNT, SMALL_TWO_COUNT, SMALL_ONE_COUNT.
    destruct (negb (ca =? 0) && negb (cb =? 0)).
    { specialize (IH st). lia. }
    destruct (ca =? 3); [cbn [evaluationLarge evaluationSmall]; lia |].
    destruct (cb =? 3); [cbn [evaluationLarge evaluationSmall]; lia |].
    match goal with
    | |- context [scan_lines rest a b ?st'] => specialize (IH st')
    end.
    cbn [evaluationLarge evaluationSmall] in IH.
    destruct (ca =? 2), (cb =? 2), (ca =? 1), (cb =? 1); lia.
Qed.

Lemma evaluationPos_range (us them : Z) : -189 <= evaluationPos us them <= 189.
Proof.
  unfold evaluationPos, CORNER, EDGE, CENTRE.
  pose proof (popCount_range (Z.land us CORNER_MASK)).
  pose proof (popCount_range (Z.land them CORNER_MASK)).
  pose proof (popCount_range (Z.land us EDGE_MASK)).
  pose proof (popCount_range (Z.land them EDGE_MASK)).
  pose proof (popCount_range (Z.land us CENTRE_MASK)).
  pose proof (popCount_range (Z.land them CENTRE_MASK)).
  lia.
Qed.

Lemma scan_range (us them : Z) :
  -720 <= evaluationLarge (scan us them) <= 720
  /\ -64 <= evaluationSmall (scan us them) <= 64.
Proof.
  unfold scan.
  pose proof (scan_lines_range slot_offsets (lines us) (lines them)
                (mkLineScan 0 0 false false)) as H.
  change (Z.of_nat (length slot_offsets)) with 8 in H.
  cbn [evaluationLarge evaluationSmall] in H. lia.
Qed.

(** An entry of the large table is a mate score or small; an entry of the
    small table is small. *)
Lemma entries_range (us them : Z) :
  (large_entry us them = 1000000 \/ large_entry us them = -1000000
   \/ -5445 <= large_entry us them <= 5445)
  /\ -253 <= small_entry us them <= 253.
Proof.
  unfold large_entry, small_entry, small_write.
  pose proof (scan_range us them) as Hscan.
  pose proof (evaluationPos_range us them) as Hpos.
  revert Hscan Hpos.
  generalize (evaluationPos us them). generalize (get popCount (Z.lor us them)).
  destruct (scan us them) as [el es uw tw].
  cbn [usWon themWon evaluationLarge evaluationSmall].
  intros c pos Hscan Hpos. unfold OUTCOME_WIN, OUTCOME_LOSS, OUTCOME_DRAW, SQ_BIG.
  destruct uw, tw, (c =? 9); cbv [default from_option id]; split; lia.
Qed.

Lemma DBLCHUNK_split (x : Z) :
  Z.land x DBLCHUNK = table_index (Z.land x CHUNK) (Z.land (Z.shiftr x 9) CHUNK).
Proof.
  unfold table_index. apply Z.bits_inj'. intros n Hn.
  change DBLCHUNK with (Z.ones 18).
  rewrite Z.lor_spec, !Z.land_spec, Z.shiftl_spec, Z.land_spec by lia.
  rewrite Z.testbit_ones_nonneg by lia.
  destruct (Z.lt_ge_cases n 9).
  - rewrite !(Z.testbit_neg_r _ (n - 9)) by lia.
    rewrite testbit_CHUNK by lia.
    destruct (Z.ltb_spec n 18), (Z.ltb_spec n 9); try lia. reflexivity.
  - rewrite Z.shiftr_spec, !testbit_CHUNK by lia.
    replace (n - 9 + 9) with n by lia.
    destruct (Z.ltb_spec n 18), (Z.ltb_spec n 9), (Z.ltb_spec (n - 9) 9); try lia;
      now rewrite ?andb_false_r, ?andb_true_r, ?orb_false_r.
Qed.

Lemma large_read_range (x : Z) :
  get EVAL_TABLE_LARGE (Z.land x DBLCHUNK) = 1000000
  \/ get EVAL_TABLE_LARGE (Z.land x DBLCHUNK) = -1000000
  \/ -5445 <= get EVAL_TABLE_LARGE (Z.land x DBLCHUNK) <= 5445.
Proof.
  rewrite DBLCHUNK_split.
  rewrite EVAL_TABLE_LARGE_entry by apply land_CHUNK_range.
  apply entries_range.
Qed.

Lemma small_read_range (x y : Z) :
  -253 <= get EVAL_TABLE_SMALL (Z.lor (Z.shiftl (Z.land y CHUNK) 9) (Z.land x CHUNK)) <= 253.
Proof.
  fold (table_index (Z.land x CHUNK) (Z.land y CHUNK)).
  rewrite EVAL_TABLE_SMALL_entry by apply land_CHUNK_range.
  apply entries_range.
Qed.

Lemma fold_step_range (g : Z -> Z -> Z) (c : Z) (l : list Z) (a : Z) :
  (forall acc i, acc - c <= g acc i <= acc + c) ->
  a - c * Z.of_nat (length l) <= fold_left g l a <= a + c * Z.of_nat (length l).
Proof.
  intros Hg. revert a. induction l as [| i l IH]; intros a; cbn [fold_left length].
  - lia.
  - specialize (IH (g a i)). specialize (Hg a i). lia.
Qed.

Lemma evaluate_cases (P : Board) (side : bool) :
  evaluate P side = 1000000 \/ evaluate P side = -1000000
  \/ -7722 <= evaluate P side <= 7722.
Proof.
  destruct P as [u t s]. unfold evaluate. cbv zeta.
  pose proof (large_read_range (Z.shiftr s 36)) as Hl.
  revert Hl. generalize (get EVAL_TABLE_LARGE (Z.land (Z.shiftr s 36) DBLCHUNK)).
  intros d Hl. unfold OUTCOME_WIN, OUTCOME_LOSS, OUTCOME_DRAW.
  destruct (Z.eqb_spec d 1000000) as [-> | Hw]; [destruct side; cbn [orb]; lia |].
  destruct (Z.eqb_spec d (-1000000)) as [-> | Hlo]; [destruct side; cbn [orb]; lia |].
  cbn [orb].
  destruct (_ =? CHUNK); [lia |].
  match goal with
  | |- context [fold_left ?g2 [7; 8] (fold_left ?g1 (keys 7) d)] =>
      pose proof (fold_step_range g1 253 (keys 7) d) as H1;
      pose proof (fold_step_range g2 253 [7; 8] (fold_left g1 (keys 7) d)) as H2;
      revert H1 H2;
      generalize (fold_left g2 [7; 8] (fold_left g1 (keys 7) d));
      generalize (fold_left g1 (keys 7) d)
  end.
  intros e1 e2 H1 H2.
  change (Z.of_nat (length (keys 7))) with 7 in H1.
  change (Z.of_nat (length [7; 8])) with 2 in H2.
  assert (Hb1 : d - 253 * 7 <= e1 <= d + 253 * 7).
  { apply H1. intros acc i. cbv beta.
    destruct (_ || _); [lia |].
    match goal with
    | |- context [get EVAL_TABLE_SMALL (Z.lor (Z.shiftl (Z.land ?y CHUNK) 9) (Z.land ?x CHUNK))] =>
        pose proof (small_read_range x y)
    end. lia. }
  assert (Hb2 : e1 - 253 * 2 <= e2 <= e1 + 253 * 2).
  { apply H2. intros acc i. cbv beta.
    destruct (_ || _); [lia |].
    match goal with
    | |- context [get EVAL_TABLE_SMALL (Z.lor (Z.shiftl (Z.land ?y CHUNK) 9) (Z.land ?x CHUNK))] =>
        pose proof (small_read_range x y)
    end. lia. }
  destruct side; lia.
Qed.

(** X13: a static evaluation is a mate score, 1000000 or -1000000, or a
    heuristic value of magnitude at most 7722: the two kinds never meet. *)
Theorem evaluate_range (P : Board) (side : bool) :
  evaluate P side = 1000000 \/ evaluate P side = -1000000
  \/ -7722 <= evaluate P side <= 7722.
Proof. exact (evaluate_cases P side). Qed.

Lemma score_shape_opp (maxDepth : nat) (v : Eval) :
  score_shape maxDepth v -> score_shape maxDepth (- v).
Proof. unfold score_shape, OUTCOME_WIN, OUTCOME_LOSS. lia. Qed.

Section LoopScores.
Variable maxDepth : nat.
Variable child : Move -> Eval -> Eval -> EvalAndPV.
Variable slot_index : Z.
Hypothesis child_scores : forall move a b,
  score_shape maxDepth a -> score_shape maxDepth b ->
  score_shape maxDepth (evaluation (child move a b)).

Lemma search_moves_scores (moveList : list Move) (alpha beta : Eval) (line : list Move) :
  score_shape maxDepth alpha -> score_shape maxDepth beta ->
  score_shape maxDepth (evaluation (search_moves child slot_index moveList alpha beta line)).
Proof.
  revert alpha line.
  induction moveList as [| move rest IH]; intros alpha line Ha Hb; cbn [search_moves].
  - exact Ha.
  - pose proof (child_scores move (- beta) (- alpha)
                  (score_shape_opp _ _ Hb) (score_shape_opp _ _ Ha)) as Hc.
    destruct (child move (- beta) (- alpha)) as [e l]. cbn [evaluation] in Hc.
    apply score_shape_opp in Hc.
    destruct (- e >=? beta); [exact Hb |].
    destruct (- e >? alpha); apply IH; assumption.
Qed.
End LoopScores.

Lemma alphaBeta_scores (depth : nat) :
  forall board side alpha beta maxDepth,
    (depth <= maxDepth)%nat ->
    score_shape maxDepth alpha -> score_shape maxDepth beta ->
    score_shape maxDepth (evaluation (alphaBeta board side depth alpha beta maxDepth)).
Proof.
  induction depth as [| depth' IH]; intros board side alpha beta maxDepth Hle Ha Hb.
  - cbn [alphaBeta]. cbv zeta.
    pose proof (evaluate_cases board side) as He. revert He.
    generalize (evaluate board side). intros v He.
    unfold score_shape, OUTCOME_WIN, OUTCOME_LOSS.
    destruct (Z.eqb_spec v 1000000); [cbn [evaluation]; lia |].
    destruct (Z.eqb_spec v (-1000000)); cbn [evaluation]; lia.
  - rewrite alphaBeta_step. cbv zeta.
    destruct (Z.of_nat (length (generateMoves board)) =? 0).
    + generalize (get EVAL_TABLE_LARGE (Z.land (Z.shiftr (share board) 36) DBLCHUNK)
                  * (if side then 1 else -1)).
      intros v. unfold score_shape, OUTCOME_WIN, OUTCOME_LOSS, OUTCOME_DRAW.
      destruct (Z.eqb_spec v 1000000); [cbn [evaluation]; lia |].
      destruct (Z.eqb_spec v (-1000000)); cbn [evaluation]; lia.
    + apply search_moves_scores; [| exact Ha | exact Hb].
      intros move a b Ha' Hb'. apply IH; [lia | exact Ha' | exact Hb'].
Qed.

(** X14: the score of [alphaBetaRootCall] is a mate score within [depth] of
    1000000 or of -1000000, or a heuristic value of magnitude at most 7722;
    this holds for every board and every depth, 0 included. *)
Theorem root_score_shape (P : Board) (side : bool) (depth : nat) :
  score_shape depth (evaluation (alphaBetaRootCall P side depth)).
Proof.
  unfold alphaBetaRootCall.
  apply alphaBeta_scores; [lia | |];
    unfold score_shape, OUTCOME_WIN, OUTCOME_LOSS; lia.
Qed.

(** ** The end of the game *)




(** ** The status of a grid in the interface *)

Lemma GameStatus_eqb_eq (a b : GameStatus.t) : GameStatus.eqb a b = true -> a = b.
Proof. destruct a, b; (reflexivity || discriminate). Qed.

Lemma all_grids_complete (g : list Occupancy.t) : In g (all_grids (length g)).
Proof.
  induction g as [| v g IH]; cbn [length all_grids]; [now left |].
  apply in_flat_map. exists g. split; [exact IH |].
  destruct v; cbn [In]; auto.
Qed.

Lemma status_check_all : forallb status_check (all_grids 9) = true.
Proof. vm_compute. reflexivity. Qed.

(** X16: for a grid of nine cells, [calculateGameStatus] answers X when some
    line has its three cells held by X; otherwise O when some line is held
    by O; otherwise Draw when no cell is free, and Free when one is.  The
    masks built with [1 << idx] stand for the cells. *)
Theorem calculateGameStatus_cells (grid : list Occupancy.t) :
  length grid = 9%nat ->
  calculateGameStatus grid =
  if holds_line Occupancy.X grid then GameStatus.X
  else if holds_line Occupancy.O grid then GameStatus.O
  else if forallb (fun value => negb (Occupancy.eqb value Occupancy.Free)) grid
       then GameStatus.Draw
       else GameStatus.Free.
Proof.
  intros Hlen. apply GameStatus_eqb_eq.
  pose proof (all_grids_complete grid) as Hin. rewrite Hlen in Hin.
  pose proof status_check_all as Hall. rewrite forallb_forall in Hall.
  exact (Hall grid Hin).
Qed.

Lemma calculateGameStatus_cells_witness :
  length (repeat Occupancy.X 9) = 9%nat
  /\ calculateGameStatus (repeat Occupancy.X 9) =
     (if holds_line Occupancy.X (repeat Occupancy.X 9) then GameStatus.X
      else if holds_line Occupancy.O (repeat Occupancy.X 9) then GameStatus.O
      else if forallb (fun value => negb (Occupancy.eqb value Occupancy.Free))
                (repeat Occupancy.X 9)
           then GameStatus.Draw
           else GameStatus.Free).
Proof.
  split; [reflexivity |].
  apply (calculateGameStatus_cells (repeat Occupancy.X 9)). reflexivity.
Defined.

Lemma patterns_check_all :
  forallb (fun x => forallb (patterns_check x) (keys 512)) (keys 512) = true.
Proof. vm_compute. reflexivity. Qed.

Lemma zone_pattern_range (p : bool) (P : Board) (z : Z) : 0 <= zone_pattern p P z < 512.
Proof. unfold zone_pattern. destruct (z <? 7); apply land_CHUNK_range. Qed.

(** The status the interface computes for the cells of a zone, read on the
    engine's position. *)
Lemma zone_status (P : Board) (z : Z) :
  well_formed P -> 0 <= z < 9 ->
  calculateGameStatus (zone_grid P z) =
  if won_bit true P z then GameStatus.X
  else if won_bit false P z then GameStatus.O
  else if zone_full P z then GameStatus.Draw
  else GameStatus.Free.
Proof.
  intros Hwf Hz.
  pose proof (zone_pattern_range true P z) as Hx.
  pose proof (zone_pattern_range false P z) as Ho.
  assert (Hdisj : Z.land (zone_pattern true P z) (zone_pattern false P z) = 0).
  { apply Z.bits_inj'. intros k Hk. rewrite Z.land_spec, Z.bits_0.
    destruct (Z.lt_ge_cases k 9).
    - rewrite !zone_pattern_bit by lia. apply (wf_disjoint P Hwf). lia.
    - rewrite <- (Z.mod_small (zone_pattern true P z) (2 ^ 9)) by lia.
      now rewrite Z.mod_pow2_bits_high by lia. }
  assert (Hfull : zone_full P z
                  = (Z.lor (zone_pattern true P z) (zone_pattern false P z) =? 511)).
  { assert (Hc : Z.land (Z.lor (zone_pattern true P z) (zone_pattern false P z)) CHUNK
                 = Z.lor (zone_pattern true P z) (zone_pattern false P z)).
    { change CHUNK with (Z.ones 9). rewrite Z.land_ones by lia.
      apply Z.mod_small. split.
      - apply Z.lor_nonneg. lia.
      - apply Z.log2_lt_cancel. rewrite Z.log2_lor by lia.
        change (Z.log2 (2 ^ 9)) with 9.
        assert (forall v, 0 <= v < 512 -> Z.log2 v < 9).
        { intros v Hv. destruct (Z.eq_dec v 0) as [-> | Hne]; [reflexivity |].
          apply Z.log2_lt_pow2; lia. }
        apply Z.max_lub_lt; auto. }
    rewrite <- Hc at 1. change 511 with CHUNK. rewrite chunk_full.
    unfold zone_full. apply forallb_pointwise. intros c Hc'. apply keys_In in Hc'.
    rewrite cell_marked_cells, Z.lor_spec, !zone_pattern_bit by lia. reflexivity. }
  rewrite !(wf_won P Hwf) by exact Hz. rewrite Hfull.
  apply GameStatus_eqb_eq.
  pose proof (forallb_keys2 512 512 patterns_check _ _ patterns_check_all Hx Ho) as H.
  unfold patterns_check in H. rewrite Hdisj in H. exact H.
Qed.



(** X18: after a move of a game, the engine sends the opponent to the zone
    [m mod 9] exactly when the interface finds the cells of that zone Free,
    and anywhere (zone field 9) exactly when it finds them X, O or Draw. *)
Theorem interface_agrees_on_next_zone (side : bool) (P : Board) (m : Move) :
  reachable side P -> In m (generateMoves P) ->
  (calculateGameStatus (zone_grid (playMove P m side) (m mod 9)) = GameStatus.Free
   <-> next_zone (playMove P m side) = m mod 9)
  /\ (calculateGameStatus (zone_grid (playMove P m side) (m mod 9)) <> GameStatus.Free
      <-> next_zone (playMove P m side) = 9).
Proof.
  intros Hreach Hin.
  pose proof (reachable_well_formed _ _ (reach_play side P m Hreach Hin)) as Hwf.
  destruct (generateMoves_sound P m (reachable_zone_field_ok side P Hreach) Hin)
    as [Hm _].
  pose proof (Z.mod_pos_bound m 9 ltac:(lia)) as Hc.
  destruct (playMove_zone_field P m side Hm) as [Hz Hany].
  rewrite (zone_status _ _ Hwf Hc).
  rewrite zone_decided_bits in Hany.
  set (nz := next_zone (playMove P m side)) in *.
  destruct (won_bit true (playMove P m side) (m mod 9)) eqn:Ex;
    [| destruct (won_bit false (playMove P m side) (m mod 9)) eqn:Eo;
       [| destruct (zone_full (playMove P m side) (m mod 9)) eqn:Ef]].
  - assert (H9 : nz = 9) by (apply Hany; now left).
    split; split; intros H; try discriminate H; try discriminate; try lia; try exact H9.
  - assert (H9 : nz = 9) by (apply Hany; now left).
    split; split; intros H; try discriminate H; try discriminate; try lia; try exact H9.
  - assert (H9 : nz = 9) by (apply Hany; now right).
    split; split; intros H; try discriminate H; try discriminate; try lia; try exact H9.
  - assert (Hn9 : nz <> 9).
    { intros E. apply Hany in E. destruct E as [E | E]; discriminate E. }
    destruct Hz as [Hz | Hz]; [contradiction |].
    split; split; intros H; try reflexivity; try exact Hz; try contradiction.
Qed.

Lemma interface_agrees_on_next_zone_witness :
  (reachable true newBoard /\ In 40 (generateMoves newBoard))
  /\ (calculateGameStatus (zone_grid (playMove newBoard 40 true) (40 mod 9))
      = GameStatus.Free
      <-> next_zone (playMove newBoard 40 true) = 40 mod 9).
Proof.
  assert (Hin : In 40 (generateMoves newBoard)) by (vm_compute; tauto).
  split; [split; [apply reach_new | exact Hin] |].
  exact (proj1 (interface_agrees_on_next_zone true newBoard 40 (reach_new true) Hin)).
Defined.

(** ** The names of the moves *)

Lemma moveString_check_all :
  forallb (fun m => forallb (moveString_check m) (keys 81)) (keys 81) = true.
Proof. vm_compute. reflexivity. Qed.

(** X19: [moveString] answers the empty string exactly for the integers
    outside [[0, 80]], the null move 81 among them, and names the moves of
    [[0, 80]] apart: two moves with the same name are the same move. *)
Theorem moveString_names_moves (m m' : Z) :
  (moveString m = ""%string <-> m < 0 \/ 80 < m)
  /\ (0 <= m <= 80 -> 0 <= m' <= 80 -> moveString m = moveString m' -> m = m').
Proof.
  split; [split |].
  - intros Hempty.
    destruct (Z.ltb_spec m 0); [now left |].
    destruct (Z.ltb_spec 80 m); [now right | exfalso].
    pose proof (forallb_keys2 81 81 moveString_check m m moveString_check_all
                  ltac:(lia) ltac:(lia)) as Hchk.
    unfold moveString_check in Hchk. rewrite Hempty in Hchk. discriminate Hchk.
  - intros Hout. unfold moveString.
    destruct (Z.ltb_spec m 0), (Z.gtb_spec m 80); try reflexivity; lia.
  - intros Hm Hm' Heq.
    pose proof (forallb_keys2 81 81 moveString_check m m' moveString_check_all
                  ltac:(lia) ltac:(lia)) as H.
    unfold moveString_check in H. rewrite Heq, String.eqb_refl in H.
    apply andb_prop in H. destruct H as [_ H]. cbn [negb orb] in H.
    apply Z.eqb_eq. exact H.
Qed.

Lemma moveString_names_moves_witness :
  (0 <= 40 <= 80 /\ 0 <= 40 <= 80 /\ moveString 40 = moveString 40)
  /\ 40 = 40.
Proof.
  split; [repeat split; lia |].
  apply (proj2 (moveString_names_moves 40 40)); (lia || reflexivity).
Defined.

(** ** The length of a game *)



(** ** The engine under an exchange of the players *)

Lemma testbit_field (s from width to i : Z) :
  0 <= from -> 0 <= width -> 0 <= to -> 0 <= i ->
  Z.testbit (field s from width to) i
  = (to <=? i) && (i <? to + width) && Z.testbit s (i - to + from).
Proof.
  intros Hf Hw Ht Hi. unfold field. rewrite Z.shiftl_spec by lia.
  destruct (Z.leb_spec to i).
  - rewrite Z.land_spec, Z.shiftr_spec, Z.testbit_ones_nonneg by lia.
    destruct (Z.ltb_spec (i - to) width), (Z.ltb_spec i (to + width)); try lia;
      cbn [andb]; now rewrite ?andb_false_r, ?andb_true_r.
  - now rewrite Z.testbit_neg_r by lia.
Qed.

Lemma exchange_share_bits (s i : Z) :
  0 <= i ->
  Z.testbit (exchange_share s) i =
  if i <? 18 then Z.testbit s (i + 18)
  else if i <? 36 then Z.testbit s (i - 18)
  else if i <? 45 then Z.testbit s (i + 9)
  else if i <? 54 then Z.testbit s (i - 9)
  else if i <? 58 then Z.testbit s i
  else false.
Proof.
  intros Hi. unfold exchange_share.
  rewrite !Z.lor_spec, !testbit_field by lia.
  destruct (Z.ltb_spec i 18), (Z.ltb_spec i 36), (Z.ltb_spec i 45),
    (Z.ltb_spec i 54), (Z.ltb_spec i 58); try lia;
    repeat match goal with
           | |- context [?a <=? ?b] => destruct (Z.leb_spec a b); try lia
           | |- context [?a <? ?b] => destruct (Z.ltb_spec a b); try lia
           end;
    cbn [andb orb]; rewrite ?orb_false_r; try reflexivity; f_equal; lia.
Qed.

Lemma next_zone_exchange (P : Board) : next_zone (exchange P) = next_zone P.
Proof.
  unfold next_zone, exchange. cbn [share]. apply Z.bits_inj'. intros n Hn.
  rewrite !Z.land_spec, !Z.shiftr_spec, exchange_share_bits by lia.
  change 15 with (Z.ones 4). rewrite Z.testbit_ones_nonneg by lia.
  destruct (Z.ltb_spec n 4); [| now rewrite !andb_false_r].
  destruct (Z.ltb_spec (n + 54) 18), (Z.ltb_spec (n + 54) 36), (Z.ltb_spec (n + 54) 45),
    (Z.ltb_spec (n + 54) 54), (Z.ltb_spec (n + 54) 58); try lia. reflexivity.
Qed.

Lemma cell_of_exchange (p : bool) (P : Board) (m : Z) :
  0 <= m < 81 -> cell_of p (exchange P) m = cell_of (negb p) P m.
Proof.
  intros Hm. unfold cell_of, exchange. cbn [us them share].
  destruct (Z.ltb_spec m 63); [now destruct p |].
  rewrite exchange_share_bits by (destruct p; lia).
  destruct p; cbn [negb];
    repeat match goal with
           | |- context [?a <? ?b] => destruct (Z.ltb_spec a b); try lia
           end; f_equal; lia.
Qed.

Lemma won_bit_exchange (p : bool) (P : Board) (z : Z) :
  0 <= z < 9 -> won_bit p (exchange P) z = won_bit (negb p) P z.
Proof.
  intros Hz. unfold won_bit, exchange. cbn [share].
  rewrite exchange_share_bits by (destruct p; lia).
  destruct p; cbn [negb];
    repeat match goal with
           | |- context [?a <? ?b] => destruct (Z.ltb_spec a b); try lia
           end; f_equal; lia.
Qed.

Lemma linePresence_shift_bits (s s' a a' : Z) :
  (forall k, 0 <= k < 9 -> Z.testbit s (k + a) = Z.testbit s' (k + a')) ->
  linePresence (Z.shiftr s a) = linePresence (Z.shiftr s' a').
Proof.
  intros H. apply linePresence_low. intros k Hk.
  rewrite !Z.shiftr_spec by lia. apply H, Hk.
Qed.

Lemma meta_line_exchange (P : Board) : meta_line (exchange P) = meta_line P.
Proof.
  unfold meta_line, exchange. cbn [share]. rewrite orb_comm. f_equal;
    apply linePresence_shift_bits; intros k Hk;
    rewrite exchange_share_bits by lia;
    repeat match goal with
           | |- context [?a <? ?b] => destruct (Z.ltb_spec a b); try lia
           end; f_equal; lia.
Qed.

Lemma generateMoves_of_exchange (P : Board) :
  generateMoves (exchange P) = generateMoves P.
Proof.
  pose proof (meta_line_exchange P) as Hmeta.
  pose proof (next_zone_exchange P) as Hzone.
  destruct P as [u t s]. unfold meta_line, next_zone, exchange in *.
  cbn [us them share] in *. unfold generateMoves.
  rewrite Hmeta, Hzone.
  destruct (linePresence (Z.shiftr s 36) || linePresence (Z.shiftr s 45));
    [reflexivity |].
  assert (Hlow : forall i, (Z.land (Z.shiftr (Z.lor t u) i) 1 =? 0)
                           = (Z.land (Z.shiftr (Z.lor u t) i) 1 =? 0))
    by (intros i; now rewrite Z.lor_comm).
  assert (Hhigh : forall i, 63 <= i < 81 ->
            (Z.land (Z.shiftr (Z.lor (Z.shiftr (exchange_share s) 18) (exchange_share s))
                       (i - 63)) 1 =? 0)
            = (Z.land (Z.shiftr (Z.lor (Z.shiftr s 18) s) (i - 63)) 1 =? 0)).
  { intros i Hi. rewrite !cell_test_high by lia.
    rewrite !exchange_share_bits by lia.
    repeat match goal with
           | |- context [?a <? ?b] => destruct (Z.ltb_spec a b); try lia
           end.
    rewrite orb_comm. f_equal. f_equal; f_equal; lia. }
  assert (Hmetab : forall i, 0 <= i < 81 ->
            (Z.land (Z.shiftr (Z.lor (Z.shiftr (exchange_share s) 36)
                                 (Z.shiftr (exchange_share s) 45)) (Z.quot i 9)) 1 =? 0)
            = (Z.land (Z.shiftr (Z.lor (Z.shiftr s 36) (Z.shiftr s 45)) (Z.quot i 9)) 1 =? 0)).
  { intros i Hi. rewrite !meta_test by lia.
    assert (0 <= i / 9 < 9)
      by (split; [apply Z.div_pos | apply Z.div_lt_upper_bound]; lia).
    rewrite !exchange_share_bits by lia.
    repeat match goal with
           | |- context [?a <? ?b] => destruct (Z.ltb_spec a b); try lia
           end.
    rewrite orb_comm. f_equal. f_equal; f_equal; lia. }
  set (zone := Z.land (Z.shiftr s 54) 15) in *.
  assert (Hzr : 0 <= zone < 16).
  { subst zone. change 15 with (Z.ones 4). rewrite Z.land_ones by lia.
    apply Z.mod_pos_bound. lia. }
  destruct (zone =? ZONE_ANY).
  - f_equal; apply filter_ext_in; intros i Hi.
    + apply keys_In in Hi. now rewrite Hlow, Hmetab by lia.
    + apply in_map_iff in Hi. destruct Hi as [j [<- Hj]]. apply keys_In in Hj.
      now rewrite Hhigh, Hmetab by lia.
  - destruct ((zone =? 7) || (zone =? 8)) eqn:H78.
    + apply filter_ext_in. intros i Hi.
      apply in_map_iff in Hi. destruct Hi as [j [<- Hj]]. apply keys_In in Hj.
      apply Hhigh. lia.
    + apply filter_ext_in. intros i Hi. apply Hlow.
Qed.

(** X21: [generateMoves] does not depend on which player is which: with the
    two players exchanged it offers the same moves in the same order. *)
Theorem generateMoves_exchange (P : Board) :
  generateMoves (exchange P) = generateMoves P.
Proof. exact (generateMoves_of_exchange P). Qed.

Lemma land_CHUNK_bits (x y : Z) :
  (forall k, 0 <= k < 9 -> Z.testbit x k = Z.testbit y k) ->
  Z.land x CHUNK = Z.land y CHUNK.
Proof.
  intros H. apply Z.bits_inj'. intros n Hn.
  rewrite !Z.land_spec, testbit_CHUNK by lia.
  destruct (Z.ltb_spec n 9); [now rewrite H by lia | now rewrite !andb_false_r].
Qed.

(** A nine-bit slice of [exchange_share s] is a slice of [s]. *)
Lemma slice_exchange (s a a' : Z) :
  0 <= a ->
  (forall k, 0 <= k < 9 -> Z.testbit (exchange_share s) (k + a) = Z.testbit s (k + a')) ->
  Z.land (Z.shiftr (exchange_share s) a) CHUNK = Z.land (Z.shiftr s a') CHUNK.
Proof.
  intros Ha H. apply land_CHUNK_bits. intros k Hk.
  rewrite !Z.shiftr_spec by lia. apply H, Hk.
Qed.

Ltac exchange_bits :=
  intros k Hk; rewrite exchange_share_bits by lia;
  repeat match goal with
         | |- context [?a <? ?b] => destruct (Z.ltb_spec a b); try lia
         end; f_equal; lia.

Lemma fold_step_opp (g g' : Z -> Z -> Z) (l : list Z) (a : Z) :
  (forall acc i, In i l -> g' (- acc) i = - g acc i) ->
  fold_left g' l (- a) = - fold_left g l a.
Proof.
  revert a. induction l as [| i l IH]; intros a H; cbn [fold_left]; [reflexivity |].
  rewrite (H a i) by now left.
  apply IH. intros acc j Hj. apply H. now right.
Qed.

Lemma small_read_exchange (x y : Z) :
  get EVAL_TABLE_SMALL (Z.lor (Z.shiftl (Z.land x CHUNK) 9) (Z.land y CHUNK))
  = - get EVAL_TABLE_SMALL (Z.lor (Z.shiftl (Z.land y CHUNK) 9) (Z.land x CHUNK)).
Proof.
  pose proof (EVAL_TABLE_SMALL_entry (Z.land y CHUNK) (Z.land x CHUNK)
                (land_CHUNK_range y) (land_CHUNK_range x)) as S1.
  pose proof (EVAL_TABLE_SMALL_entry (Z.land x CHUNK) (Z.land y CHUNK)
                (land_CHUNK_range x) (land_CHUNK_range y)) as S2.
  unfold table_index in S1, S2. rewrite S1, S2.
  exact (proj2 (entries_flip (Z.land x CHUNK) (Z.land y CHUNK))).
Qed.

Lemma large_read_exchange (s : Z) :
  get EVAL_TABLE_LARGE (Z.land (Z.shiftr (exchange_share s) 36) DBLCHUNK)
  = - get EVAL_TABLE_LARGE (Z.land (Z.shiftr s 36) DBLCHUNK).
Proof.
  rewrite (DBLCHUNK_split (Z.shiftr (exchange_share s) 36)).
  rewrite (DBLCHUNK_split (Z.shiftr s 36)).
  rewrite !Z.shiftr_shiftr by lia. change (36 + 9) with 45.
  rewrite (slice_exchange s 36 45) by (lia || exchange_bits).
  rewrite (slice_exchange s 45 36) by (lia || exchange_bits).
  rewrite (EVAL_TABLE_LARGE_entry (Z.land (Z.shiftr s 45) CHUNK) (Z.land (Z.shiftr s 36) CHUNK))
    by apply land_CHUNK_range.
  rewrite (EVAL_TABLE_LARGE_entry (Z.land (Z.shiftr s 36) CHUNK) (Z.land (Z.shiftr s 45) CHUNK))
    by apply land_CHUNK_range.
  exact (proj1 (entries_flip (Z.land (Z.shiftr s 36) CHUNK) (Z.land (Z.shiftr s 45) CHUNK))).
Qed.

Lemma evaluate_negates_sides (P : Board) : - evaluate P true = evaluate P false.
Proof.
  destruct P as [u t s]. unfold evaluate.
  destruct (_ || _); [lia |].
  destruct (_ =? CHUNK); [reflexivity | lia].
Qed.

Lemma evaluate_of_exchange (P : Board) (side : bool) :
  evaluate (exchange P) side = - evaluate P side.
Proof.
  destruct P as [u t s]. unfold exchange. cbn [us them share].
  unfold evaluate. cbv zeta.
  rewrite large_read_exchange.
  generalize (get EVAL_TABLE_LARGE (Z.land (Z.shiftr s 36) DBLCHUNK)). intros d.
  assert (Hlarge : Z.land (Z.lor (Z.shiftr (exchange_share s) 36)
                             (Z.shiftr (exchange_share s) 45)) CHUNK
                   = Z.land (Z.lor (Z.shiftr s 36) (Z.shiftr s 45)) CHUNK).
  { apply land_CHUNK_bits. intros k Hk.
    rewrite !Z.lor_spec, !Z.shiftr_spec, !exchange_share_bits by lia.
    repeat match goal with
           | |- context [?a <? ?b] => destruct (Z.ltb_spec a b); try lia
           end.
    rewrite orb_comm. f_equal; f_equal; lia. }
  rewrite Hlarge.
  unfold OUTCOME_WIN, OUTCOME_LOSS, OUTCOME_DRAW.
  destruct (Z.eqb_spec d 1000000), (Z.eqb_spec d (-1000000)),
    (Z.eqb_spec (- d) 1000000), (Z.eqb_spec (- d) (-1000000)); try lia;
    cbn [orb]; try (destruct side; lia).
  destruct (_ =? CHUNK); [reflexivity |].
  match goal with
  | |- context [fold_left ?g2' [7; 8] (fold_left ?g1' (keys 7) (- d))] =>
      match goal with
      | |- context [fold_left ?g2 [7; 8] (fold_left ?g1 (keys 7) d)] =>
          assert (E1 : fold_left g1' (keys 7) (- d) = - fold_left g1 (keys 7) d);
          [| rewrite E1;
             assert (E2 : fold_left g2' [7; 8] (- fold_left g1 (keys 7) d)
                          = - fold_left g2 [7; 8] (fold_left g1 (keys 7) d));
             [| rewrite E2]]
      end
  end.
  { apply fold_step_opp. intros acc i _. cbv beta.
    rewrite (Z.lor_comm (Z.land (Z.shiftr t (9 * i)) CHUNK)).
    destruct (_ || _); [lia |].
    rewrite (small_read_exchange (Z.shiftr u (9 * i)) (Z.shiftr t (9 * i))). lia. }
  { apply fold_step_opp. intros acc i Hi. cbv beta.
    assert (Hi' : i = 7 \/ i = 8) by (cbn [In] in Hi; lia).
    rewrite (slice_exchange s (9 * i - 63) (9 * i - 45)) by (lia || exchange_bits).
    rewrite (slice_exchange s (9 * i - 45) (9 * i - 63)) by (lia || exchange_bits).
    rewrite (Z.lor_comm (Z.land (Z.shiftr s (9 * i - 45)) CHUNK)).
    destruct (_ || _); [lia |].
    rewrite (small_read_exchange (Z.shiftr s (9 * i - 63)) (Z.shiftr s (9 * i - 45))).
    lia. }
  destruct side; lia.
Qed.

(** X22: with the two players exchanged, the static evaluation changes its
    sign: it is the evaluation of the original position for the other
    side. *)
Theorem evaluate_exchange (P : Board) (side : bool) :
  evaluate (exchange P) side = - evaluate P side
  /\ evaluate (exchange P) side = evaluate P (negb side).
Proof.
  pose proof (evaluate_of_exchange P side) as H.
  split; [exact H |].
  rewrite H. destruct side; cbn [negb].
  - apply evaluate_negates_sides.
  - pose proof (evaluate_negates_sides P). lia.
Qed.
(** Setting a bit below the zone field on one side of the exchange is
    setting the bit it is exchanged with on the other. *)
Lemma exchange_share_set (s k k' : Z) :
  0 <= k < 54 ->
  k' = (if k <? 18 then k + 18 else if k <? 36 then k - 18
        else if k <? 45 then k + 9 else k - 9) ->
  Z.lor (exchange_share s) (Z.shiftl 1 k') = exchange_share (Z.lor s (Z.shiftl 1 k)).
Proof.
  intros Hk Hk'. apply Z.bits_inj'. intros i Hi.
  assert (0 <= k' < 54)
    by (subst k'; repeat match goal with
                         | |- context [?a <? ?b] => destruct (Z.ltb_spec a b)
                         end; lia).
  rewrite testbit_set, !exchange_share_bits by lia.
  repeat match goal with
         | |- context [?a <? ?b] => destruct (Z.ltb_spec a b); try lia
         | H : context [?a <? ?b] |- _ => destruct (Z.ltb_spec a b); try lia
         end;
    rewrite ?testbit_set by lia;
    try (f_equal; [f_equal; lia |]);
    repeat match goal with
           | |- context [?a =? ?b] => destruct (Z.eqb_spec a b); try lia
           end;
    try reflexivity; rewrite ?orb_false_r; try reflexivity.
Qed.

Lemma sent_anywhere_exchange (u t s c : Z) :
  0 <= c < 9 ->
  sent_anywhere t u (exchange_share s) c = sent_anywhere u t s c.
Proof.
  intros Hc. unfold sent_anywhere. f_equal.
  - apply forallb_pointwise. intros k Hk. apply keys_In in Hk.
    destruct (Z.gtb_spec c 6).
    + rewrite !exchange_share_bits by lia.
      repeat match goal with
             | |- context [?a <? ?b] => destruct (Z.ltb_spec a b); try lia
             end.
      rewrite orb_comm. f_equal; f_equal; lia.
    + apply orb_comm.
  - rewrite !exchange_share_bits by lia.
    repeat match goal with
           | |- context [?a <? ?b] => destruct (Z.ltb_spec a b); try lia
           end.
    rewrite orb_comm. f_equal; f_equal; lia.
Qed.

Lemma write_zone_exchange (s z : Z) :
  0 <= z < 16 ->
  Z.lor (Z.land (exchange_share s) EXCLZONE) (Z.shiftl z 54)
  = exchange_share (Z.lor (Z.land s EXCLZONE) (Z.shiftl z 54)).
Proof.
  intros Hz. apply Z.bits_inj'. intros i Hi.
  assert (Hzb : forall j, 4 <= j -> Z.testbit z j = false).
  { intros j Hj. rewrite <- (Z.mod_small z (2 ^ 4)) by lia.
    apply Z.mod_pow2_bits_high. lia. }
  rewrite Z.lor_spec, Z.land_spec, testbit_EXCLZONE, !exchange_share_bits by lia.
  destruct (Z.lt_ge_cases i 54) as [Hlow | Hhigh].
  - rewrite Z.shiftl_spec_low by lia.
    destruct (Z.ltb_spec i 54); [| lia]. cbn [orb]. rewrite andb_true_r, orb_false_r.
    repeat match goal with
           | |- context [?a <? ?b] => destruct (Z.ltb_spec a b); try lia
           end; rewrite write_zone_low by lia; reflexivity.
  - rewrite Z.shiftl_spec by lia.
    repeat match goal with
           | |- context [?a <? ?b] => destruct (Z.ltb_spec a b); try lia
           | |- context [?a <=? ?b] => destruct (Z.leb_spec a b); try lia
           end; cbn [andb orb]; rewrite ?andb_false_r; cbn [orb].
    + rewrite Z.lor_spec, Z.land_spec, testbit_EXCLZONE, Z.shiftl_spec by lia.
      destruct (Z.ltb_spec i 54), (Z.leb_spec 58 i); try lia.
      cbn [andb orb]. now rewrite andb_false_r.
    + apply Hzb. lia.
    + apply Hzb. lia.
Qed.

Lemma playMove_of_exchange (P : Board) (m : Move) (side : bool) :
  0 <= m < 81 ->
  playMove (exchange P) m (negb side) = exchange (playMove P m side).
Proof.
  intros Hm.
  assert (Hq : 0 <= m / 9 < 9)
    by (split; [apply Z.div_pos | apply Z.div_lt_upper_bound]; lia).
  assert (Hq7 : 63 <= m -> 7 <= m / 9) by (intros; apply Z.div_le_lower_bound; lia).
  rewrite !playMove_stages.
  pose proof (stage_mark_explicit P m side Hm) as E. cbv zeta in E. rewrite E. clear E.
  pose proof (stage_mark_explicit (exchange P) m (negb side) Hm) as E.
  cbv zeta in E. rewrite E. clear E.
  destruct P as [u t s]. unfold exchange. cbv beta iota zeta. cbn [us them share].
  rewrite negb_involutive.
  set (u1 := if (m <=? 62) && side then Z.lor u (Z.shiftl 1 m) else u).
  set (t1 := if (m <=? 62) && negb side then Z.lor t (Z.shiftl 1 m) else t).
  set (s0 := if 63 <=? m
             then Z.lor s (Z.shiftl 1 (m - 63 + (if side then 0 else 18)))
             else s).
  assert (Es0 : (if 63 <=? m
                 then Z.lor (exchange_share s)
                        (Z.shiftl 1 (m - 63 + (if negb side then 0 else 18)))
                 else exchange_share s) = exchange_share s0).
  { subst s0. destruct (Z.leb_spec 63 m); [| reflexivity].
    apply exchange_share_set; [destruct side; lia |].
    destruct side; cbn [negb];
      repeat match goal with
             | |- context [?a <? ?b] => destruct (Z.ltb_spec a b); try lia
             end. }
  rewrite Es0.
  set (won := if 63 <=? m
              then linePresence (Z.shiftr s0 (9 * (m / 9) - 63 + (if side then 0 else 18)))
              else linePresence (Z.shiftr (if side then u1 else t1) (9 * (m / 9)))).
  assert (Ewon : (if 63 <=? m
                  then linePresence
                         (Z.shiftr (exchange_share s0)
                            (9 * (m / 9) - 63 + (if negb side then 0 else 18)))
                  else linePresence
                         (Z.shiftr (if negb side then t1 else u1) (9 * (m / 9))))
                 = won).
  { subst won. destruct (Z.leb_spec 63 m).
    - apply linePresence_shift_bits. intros k Hk.
      rewrite exchange_share_bits by (destruct side; cbn [negb]; lia).
      destruct side; cbn [negb];
        repeat match goal with
               | |- context [?a <? ?b] => destruct (Z.ltb_spec a b); try lia
               end; f_equal; lia.
    - now destruct side. }
  rewrite Ewon.
  set (s1 := if won then Z.lor s0 (Z.shiftl 1 (36 + (if side then 0 else 9) + m / 9))
             else s0).
  assert (Es1 : (if won
                 then Z.lor (exchange_share s0)
                        (Z.shiftl 1 (36 + (if negb side then 0 else 9) + m / 9))
                 else exchange_share s0) = exchange_share s1).
  { subst s1. destruct won; [| reflexivity].
    apply exchange_share_set; [destruct side; lia |].
    destruct side; cbn [negb];
      repeat match goal with
             | |- context [?a <? ?b] => destruct (Z.ltb_spec a b); try lia
             end. }
  rewrite Es1.
  pose proof (Z.mod_pos_bound m 9 ltac:(lia)) as Hc.
  assert (Ez : stage_zone t1 u1 (exchange_share s1) m = stage_zone u1 t1 s1 m).
  { rewrite !stage_zone_spec by exact Hm.
    now rewrite sent_anywhere_exchange by exact Hc. }
  rewrite Ez. f_equal.
  apply write_zone_exchange, stage_zone_range, Hm.
Qed.

(** X23: [playMove] does not depend on which player is which: a move of the
    other side on the exchanged position gives the exchanged position. *)
Theorem playMove_exchange (P : Board) (m : Move) (side : bool) :
  0 <= m < 81 ->
  playMove (exchange P) m (negb side) = exchange (playMove P m side).
Proof. exact (playMove_of_exchange P m side). Qed.

Lemma playMove_exchange_witness :
  0 <= 70 < 81
  /\ playMove (exchange newBoard) 70 (negb true) = exchange (playMove newBoard 70 true).
Proof.
  split; [lia |]. apply (playMove_exchange newBoard 70 true). lia.
Defined.
Lemma search_moves_ext (child child' : Move -> Eval -> Eval -> EvalAndPV)
  (k : Z) (moveList : list Move) (alpha beta : Eval) (line : list Move) :
  (forall move a b, In move moveList -> child' move a b = child move a b) ->
  search_moves child' k moveList alpha beta line
  = search_moves child k moveList alpha beta line.
Proof.
  revert alpha line.
  induction moveList as [| move rest IH]; intros alpha line H; cbn [search_moves];
    [reflexivity |].
  rewrite (H move (- beta) (- alpha)) by now left.
  destruct (child move (- beta) (- alpha)) as [e l].
  destruct (- e >=? beta); [reflexivity |].
  destruct (- e >? alpha); apply IH; intros; apply H; now right.
Qed.

Lemma alphaBeta_of_exchange (depth : nat) :
  forall P side alpha beta maxDepth,
    next_zone P <= 9 ->
    alphaBeta (exchange P) (negb side) depth alpha beta maxDepth
    = alphaBeta P side depth alpha beta maxDepth.
Proof.
  induction depth as [| depth' IH]; intros P side alpha beta maxDepth Hzone.
  - cbn [alphaBeta]. cbv zeta.
    assert (E : evaluate (exchange P) (negb side) = evaluate P side).
    { rewrite evaluate_of_exchange. pose proof (evaluate_negates_sides P).
      destruct side; cbn [negb]; lia. }
    rewrite E. reflexivity.
  - rewrite !alphaBeta_step. cbv zeta.
    rewrite generateMoves_of_exchange.
    destruct (Z.of_nat (length (generateMoves P)) =? 0).
    + assert (E : get EVAL_TABLE_LARGE
                    (Z.land (Z.shiftr (share (exchange P)) 36) DBLCHUNK)
                  * (if negb side then 1 else -1)
                  = get EVAL_TABLE_LARGE (Z.land (Z.shiftr (share P) 36) DBLCHUNK)
                    * (if side then 1 else -1)).
      { unfold exchange. cbn [share]. rewrite large_read_exchange.
        destruct side; cbn [negb]; lia. }
      rewrite E. reflexivity.
    + apply search_moves_ext. intros move a b Hin.
      apply generateMoves_In in Hin; [| exact Hzone].
      destruct Hin as [_ [Hm _]].
      rewrite playMove_of_exchange by exact Hm.
      apply IH.
      destruct (proj1 (playMove_zone_field P move side Hm)) as [-> | ->]; [lia |].
      pose proof (Z.mod_pos_bound move 9 ltac:(lia)). lia.
Qed.

(** X24: the search does not depend on which player is which: on a position
    whose zone field is at most 9, the search for the other side on the
    exchanged position answers the same score and the same principal
    variation. *)
Theorem alphaBeta_exchange (P : Board) (side : bool) (depth : nat)
  (alpha beta : Eval) (maxDepth : nat) :
  next_zone P <= 9 ->
  alphaBeta (exchange P) (negb side) depth alpha beta maxDepth
  = alphaBeta P side depth alpha beta maxDepth.
Proof. exact (alphaBeta_of_exchange depth P side alpha beta maxDepth). Qed.

Lemma alphaBeta_exchange_witness :
  next_zone newBoard <= 9
  /\ alphaBeta (exchange newBoard) (negb true) 2 (-1000000) 1000000 2
     = alphaBeta newBoard true 2 (-1000000) 1000000 2.
Proof.
  assert (H : next_zone newBoard <= 9) by (vm_compute; discriminate).
  split; [exact H |].
  exact (alphaBeta_exchange newBoard true 2 (-1000000) 1000000 2 H).
Defined.
